(** * Stage-progress reconciliation: the upload page script and the
      ProcessingPipeline component

    Two pieces of the repository drive the six-stage progress display:

    - the page script ([startProgressPolling], [runSimulation],
      [updateProgress], [updateStepStatus]): a 50ms simulation interval and
      a 2000ms polling interval, both kept in module-level handles;
    - the React component [ProcessingPipeline] ([startStep] and the effect
      cleanup): a chain of timers that walks through the stages and calls
      [onComplete].

    Both are embedded below as state-passing functions over an explicit
    timer table.  JavaScript numbers are modelled by exact rationals [Q].
    In the concrete runs of the page script every comparison has a wide
    margin.  In the component a progress interval clears itself on its 30th
    tick under exact arithmetic; rounding could make it the 31st, which is
    still before the next step starts and only shifts the count of
    callbacks in a run.  All [Date.now()] readings inside one callback are
    taken to be equal, and the progress bar elements and the six stage
    elements are taken to be present in the document. *)

From Stdlib Require Import ZArith QArith Qminmax Qround Lia Lqa.
From stdpp Require Import gmap strings list.

Local Open Scope Z_scope.

(** ** The page script *)
Module Script.

(** The class carried by a [.step] element among [active] / [completed];
    [Pending] is the element with neither class. *)
Inductive Status := Pending | Active | Completed.

#[global] Instance Status_eq_dec : EqDecision Status.
Proof. solve_decision. Defined.

(** The [status] field of a task report. Any string other than
    ['completed'] and ['failed'] takes neither terminal branch. *)
Inductive TaskStatus := StRunning | StCompleted | StFailed.

#[global] Instance TaskStatus_eq_dec : EqDecision TaskStatus.
Proof. solve_decision. Defined.

(** A task report as returned by [/api/task/<id>]; absent fields are [None]. *)
Record Task := {
  status : TaskStatus;
  progress : option Q;
  current_step : option string;
  completed_steps : option (list string);
  error : option string
}.

(** The part of the document the script reads and writes. *)
Record Document := {
  stepEls : gmap string Status;   (* [data-step] elements and their class *)
  width : Q;                      (* progressFill.style.width, in percent *)
  text : Z;                       (* progressText.textContent, in percent *)
  processingHidden : bool;        (* processingStatus has class hidden *)
  errorsShown : list string;      (* messages passed to showError, oldest first *)
  resultsShown : nat              (* number of displayResults calls *)
}.

(** The variables closed over by [runSimulation]. *)
Record SimEnv := {
  currentStepIndex : nat;
  stepStartTime : Z;
  lastProgress : Q;
  isTransitioning : bool
}.

Inductive TimerKind :=
| SimTimer (run : nat)        (* setInterval(runSimulation, 50) of run [run] *)
| PollTimer (taskId : string) (* setInterval(async () => ..., 2000) *).

Record Timer := { tid : nat; tkind : TimerKind; tinterval : Z }.

Record State := {
  progressInterval : option nat;
  simulationInterval : option nat;
  timers : list Timer;       (* intervals scheduled and not cleared *)
  nextId : nat;              (* next handle setInterval returns *)
  closures : list SimEnv;    (* one environment per startProgressPolling call *)
  doc : Document;
  inflight : nat;            (* status fetches issued and not settled *)
  consoleErrors : nat        (* console.error calls of the polling catch *)
}.

Definition steps : list string :=
  ["router"; "extractor"; "classifier"; "labeler"; "quality"; "output"]%string.

Definition stepDuration : Z := 2000.

(** *** DOM helpers *)

Definition set_stepEls (m : gmap string Status) (d : Document) : Document :=
  {| stepEls := m; width := width d; text := text d;
     processingHidden := processingHidden d; errorsShown := errorsShown d;
     resultsShown := resultsShown d |}.

(** [Math.round] on a rational. *)
Definition round (p : Q) : Z := Qfloor (p + (1 # 2)).

(** The two assignments [progressFill.style.width] / [progressText.textContent]. *)
Definition setBar (p : Q) (t : Z) (d : Document) : Document :=
  {| stepEls := stepEls d; width := p; text := t;
     processingHidden := processingHidden d; errorsShown := errorsShown d;
     resultsShown := resultsShown d |}.

Definition updateStepStatus (stepName : string) (st : Status) (d : Document) : Document :=
  match stepEls d !! stepName with
  | None => d                                   (* Step not found *)
  | Some _ => set_stepEls (<[stepName := st]> (stepEls d)) d
  end.

(** [updateStepStatus(steps[i], st)]; an index out of range names no element. *)
Definition updateStepAt (i : nat) (st : Status) (d : Document) : Document :=
  match steps !! i with
  | Some name => updateStepStatus name st d
  | None => d
  end.

Definition truthy_str (o : option string) : option string :=
  match o with
  | Some s => if decide (s = ""%string) then None else Some s
  | None => None
  end.

Definition clamp100 (p : Q) : Q := Qmin (Qmax p 0) 100.

Definition updateProgress (task : Task) (d : Document) : Document :=
  let p := clamp100 (default 0%Q (progress task)) in
  let d1 := setBar p (round p) d in
  let d2 := match truthy_str (current_step task) with
            | Some name => updateStepStatus name Active d1
            | None => d1
            end in
  match completed_steps task with
  | Some l => fold_left (fun acc name => updateStepStatus name Completed acc) l d2
  | None => d2
  end.

Definition showError (msg : string) (d : Document) : Document :=
  {| stepEls := stepEls d; width := width d; text := text d;
     processingHidden := processingHidden d;
     errorsShown := errorsShown d ++ [msg];
     resultsShown := resultsShown d |}.

Definition hideProcessing (d : Document) : Document :=
  {| stepEls := stepEls d; width := width d; text := text d;
     processingHidden := true; errorsShown := errorsShown d;
     resultsShown := resultsShown d |}.

Definition unhideProcessing (d : Document) : Document :=
  {| stepEls := stepEls d; width := width d; text := text d;
     processingHidden := false; errorsShown := errorsShown d;
     resultsShown := resultsShown d |}.

Definition displayResults (d : Document) : Document :=
  {| stepEls := stepEls d; width := width d; text := text d;
     processingHidden := processingHidden d; errorsShown := errorsShown d;
     resultsShown := S (resultsShown d) |}.

(** [showProcessing]: every [.step] loses [active] and [completed], the bar
    goes back to 0. *)
Definition showProcessing (d : Document) : Document :=
  {| stepEls := (fun _ => Pending) <$> stepEls d; width := 0; text := 0;
     processingHidden := false; errorsShown := errorsShown d;
     resultsShown := resultsShown d |}.

(** *** The simulation tick *)

Definition nsteps : Q := inject_Z (Z.of_nat (length steps)).

Definition baseProgress (idx : nat) : Q :=
  inject_Z (Z.of_nat idx) / nsteps * 100.

Definition stepProgress (elapsed : Z) : Q :=
  Qmin (inject_Z elapsed / inject_Z stepDuration * (100 / nsteps)) (100 / nsteps).

(** [Math.min(baseProgress + stepProgress, 95)]. *)
Definition cappedProgress (idx : nat) (elapsed : Z) : Q :=
  Qmin (baseProgress idx + stepProgress elapsed) 95.

(** The value written to the bar: the capped value, or [lastProgress + 0.8]
    when the capped value is not above [lastProgress]. *)
Definition tickProgress (env : SimEnv) (elapsed : Z) : Q :=
  let p := cappedProgress (currentStepIndex env) elapsed in
  if Qle_bool p (lastProgress env) then lastProgress env + (8 # 10) else p.

Definition runSimulation (now : Z) (ed : SimEnv * Document) : SimEnv * Document :=
  let '(env, d) := ed in
  let elapsed := now - stepStartTime env in
  let p := tickProgress env elapsed in
  let d1 := setBar p (round p) d in
  let idx := currentStepIndex env in
  (* Move to next step if current step is done *)
  let '(env2, d2) :=
    if (stepDuration <=? elapsed) && (idx <? length steps - 1)%nat
       && negb (isTransitioning env)
    then
      let d' := updateStepAt idx Completed d1 in
      let idx' := S idx in
      let d'' := updateStepAt idx' Active (updateStepAt idx' Active d') in
      ({| currentStepIndex := idx'; stepStartTime := now;
          lastProgress := baseProgress idx'; isTransitioning := false |}, d'')
    else
      ({| currentStepIndex := idx; stepStartTime := stepStartTime env;
          lastProgress := p; isTransitioning := isTransitioning env |}, d1) in
  (* Check if all steps are complete: the index is the updated one, the
     elapsed time is the one read at the top of the callback *)
  if (length steps - 1 <=? currentStepIndex env2)%nat && (stepDuration <=? elapsed)
  then (env2, setBar 100 100 (updateStepAt (currentStepIndex env2) Completed d2))
  else (env2, d2).

(** *** Timers *)

Definition clearInterval (h : option nat) (ts : list Timer) : list Timer :=
  match h with
  | Some n => filter (fun t => tid t <> n) ts
  | None => ts
  end.

(** Truthiness of a handle variable: [null] and [0] are falsy. *)
Definition truthy_handle (h : option nat) : bool :=
  match h with
  | Some (S _) => true
  | _ => false
  end.

(** [if (simulationInterval) { clearInterval(simulationInterval);
    simulationInterval = null; }] *)
Definition stopSimulation (s : State) : State :=
  if truthy_handle (simulationInterval s) then
    {| progressInterval := progressInterval s; simulationInterval := None;
       timers := clearInterval (simulationInterval s) (timers s);
       nextId := nextId s; closures := closures s; doc := doc s;
       inflight := inflight s; consoleErrors := consoleErrors s |}
  else s.

(** [clearInterval(progressInterval); progressInterval = null;] *)
Definition stopPolling (s : State) : State :=
  {| progressInterval := None; simulationInterval := simulationInterval s;
     timers := clearInterval (progressInterval s) (timers s);
     nextId := nextId s; closures := closures s; doc := doc s;
     inflight := inflight s; consoleErrors := consoleErrors s |}.

Definition with_doc (f : Document -> Document) (s : State) : State :=
  {| progressInterval := progressInterval s;
     simulationInterval := simulationInterval s;
     timers := timers s; nextId := nextId s; closures := closures s;
     doc := f (doc s);
     inflight := inflight s; consoleErrors := consoleErrors s |}.

(** One call of the [runSimulation] closure of run [r]. *)
Definition simTick (r : nat) (now : Z) (s : State) : State :=
  match closures s !! r with
  | None => s
  | Some env =>
      let '(env', d') := runSimulation now (env, doc s) in
      {| progressInterval := progressInterval s;
         simulationInterval := simulationInterval s;
         timers := timers s; nextId := nextId s;
         closures := <[r := env']> (closures s);
         doc := d';
         inflight := inflight s; consoleErrors := consoleErrors s |}
  end.

(** *** startProgressPolling *)

Definition startProgressPolling (taskId : string) (now : Z) (s : State) : State :=
  (* cancel what the handles name *)
  let ts0 := if truthy_handle (progressInterval s)
             then clearInterval (progressInterval s) (timers s) else timers s in
  let pI0 := if truthy_handle (progressInterval s) then None else progressInterval s in
  let ts1 := if truthy_handle (simulationInterval s)
             then clearInterval (simulationInterval s) ts0 else ts0 in
  let sI1 := if truthy_handle (simulationInterval s) then None else simulationInterval s in
  (* a fresh closure *)
  let r := length (closures s) in
  let env0 := {| currentStepIndex := 0; stepStartTime := now;
                 lastProgress := 0; isTransitioning := false |} in
  let d0 := unhideProcessing (doc s) in
  (* Ensure first step is active *)
  let d1 := match stepEls d0 !! "router"%string with
            | Some Active => d0
            | Some _ => updateStepStatus "router" Active d0
            | None => d0
            end in
  (* Ensure progress is visible *)
  let d2 := if Qle_bool 3 (width d1) then d1 else setBar 3 3 d1 in
  (* Run immediately *)
  let '(env1, d3) := runSimulation now (env0, d2) in
  let hs := nextId s in
  let hp := S (nextId s) in
  {| progressInterval := Some hp;
     simulationInterval := Some hs;
     timers := ts1 ++ [ {| tid := hs; tkind := SimTimer r; tinterval := 50 |};
                        {| tid := hp; tkind := PollTimer taskId; tinterval := 2000 |} ];
     nextId := S (S (nextId s));
     closures := closures s ++ [env1];
     doc := d3;
     inflight := inflight s; consoleErrors := consoleErrors s |}.

(** *** The polling continuation *)

(** [Math.min(Math.floor(task.progress / progressPerStep), steps.length - 1)] *)
Definition estimatedStep (p : Q) : nat :=
  Z.to_nat (Z.min (Qfloor (p / (100 / nsteps))) (Z.of_nat (length steps) - 1)).

(** [for (let i = 0; i < n; i++) updateStepStatus(steps[i], 'completed')] *)
Definition completeBelow (n : nat) (d : Document) : Document :=
  fold_left (fun acc i => updateStepAt i Completed acc) (seq 0 n) d.

(** [steps.forEach(step => updateStepStatus(step, 'completed'))] *)
Definition completeAll (d : Document) : Document :=
  fold_left (fun acc name => updateStepStatus name Completed acc) steps d.

Definition positive_progress (task : Task) : option Q :=
  match progress task with
  | Some p => if Qle_bool p 0 then None else Some p
  | None => None
  end.

(** The block guarded by [task.progress && task.progress > 0]. *)
Definition applySample (task : Task) (s : State) : State :=
  match positive_progress task with
  | Some p =>
      let s1 := stopSimulation s in
      let e := estimatedStep p in
      with_doc (fun d =>
                  let d1 := completeBelow e d in
                  let d2 := if (e <? length steps)%nat
                            then updateStepAt e Active d1 else d1 in
                  updateProgress task d2) s1
  | None => s
  end.

Definition with_progress (p : Q) (task : Task) : Task :=
  {| status := status task; progress := Some p;
     current_step := current_step task;
     completed_steps := completed_steps task; error := error task |}.

Definition defaultError : string := "Processing failed".

(** The body of the [try] once the report has been parsed. *)
Definition handleTask (task : Task) (s : State) : State :=
  let s1 := applySample task s in
  match status task with
  | StCompleted =>
      let s2 := stopSimulation s1 in
      let s3 := with_doc (fun d => updateProgress (with_progress 100 task)
                                     (completeAll d)) s2 in
      let s4 := stopPolling s3 in
      with_doc (fun d => hideProcessing (displayResults d)) s4
  | StFailed =>
      let s2 := stopSimulation s1 in
      let s3 := stopPolling s2 in
      with_doc (fun d => hideProcessing
                           (showError (default defaultError (truthy_str (error task))) d)) s3
  | StRunning => s1
  end.

(** The [catch]: the failure is written to the console and nothing else. *)
Definition handleFailure (s : State) : State :=
  {| progressInterval := progressInterval s;
     simulationInterval := simulationInterval s;
     timers := timers s; nextId := nextId s; closures := closures s;
     doc := doc s;
     inflight := inflight s; consoleErrors := S (consoleErrors s) |}.

Definition set_inflight (n : nat) (s : State) : State :=
  {| progressInterval := progressInterval s;
     simulationInterval := simulationInterval s;
     timers := timers s; nextId := nextId s; closures := closures s;
     doc := doc s;
     inflight := n; consoleErrors := consoleErrors s |}.

(** *** Events of the page *)

Inductive Event :=
| StartPolling (taskId : string) (now : Z)  (* a call of startProgressPolling *)
| TimerFire (h : nat) (now : Z)             (* the callback of interval [h] is due *)
| PollSettle (r : option Task)              (* a status fetch settles: a parsed
                                               report, or a rejection / non-ok *)
| ShowProcessing                            (* the form handler resets the display *).

Definition find_timer (h : nat) (ts : list Timer) : option Timer :=
  head (filter (fun t => tid t = h) ts).

Definition step (ev : Event) (s : State) : State :=
  match ev with
  | StartPolling taskId now => startProgressPolling taskId now s
  | TimerFire h now =>
      match find_timer h (timers s) with
      | Some t =>
          match tkind t with
          | SimTimer r => simTick r now s
          | PollTimer _ => set_inflight (S (inflight s)) s
          end
      | None => s                   (* a cleared interval never fires *)
      end
  | PollSettle r =>
      match inflight s with
      | O => s                      (* nothing to settle *)
      | S n =>
          match r with
          | Some task => handleTask task (set_inflight n s)
          | None => handleFailure (set_inflight n s)
          end
      end
  | ShowProcessing => with_doc showProcessing s
  end.

Definition run (evs : list Event) (s : State) : State :=
  fold_left (fun acc ev => step ev acc) evs s.

(** The page after load: six stage elements, nothing scheduled. *)
Definition page : Document :=
  {| stepEls := list_to_map ((fun n => (n, Pending)) <$> steps);
     width := 0; text := 0; processingHidden := true;
     errorsShown := []; resultsShown := 0 |}.

Definition loaded : State :=
  {| progressInterval := None; simulationInterval := None;
     timers := []; nextId := 1; closures := []; doc := page;
     inflight := 0; consoleErrors := 0 |}.

(** Class of the stage at catalog position [i]. *)
Definition stageAt (i : nat) (d : Document) : option Status :=
  name ← steps !! i; stepEls d !! name.

Definition activeCount (d : Document) : nat :=
  length (filter (fun i => stageAt i d = Some Active) (seq 0 (length steps))).

(** Ticks of the simulation interval [h] every 50ms: [n] ticks after [t0]. *)
Definition ticks (h : nat) (t0 : Z) (n : nat) : list Event :=
  (fun k => TimerFire h (t0 + 50 * Z.of_nat (S k))) <$> seq 0 n.

(** *** The timer table is the pair of handles

    Whatever has happened since the page was loaded, the scheduled intervals
    are exactly those the two module-level handles name. *)

Definition simEntry (s : State) : list Timer :=
  match simulationInterval s with
  | Some h => [ {| tid := h; tkind := SimTimer (pred (length (closures s)));
                   tinterval := 50 |} ]
  | None => []
  end.

Definition pollEntry (taskId : string) (s : State) : list Timer :=
  match progressInterval s with
  | Some h => [ {| tid := h; tkind := PollTimer taskId; tinterval := 2000 |} ]
  | None => []
  end.

Record wf (s : State) : Prop := {
  wf_timers : exists taskId, timers s = simEntry s ++ pollEntry taskId s;
  wf_sim : forall h, simulationInterval s = Some h -> (1 <= h < nextId s)%nat;
  wf_poll : forall h, progressInterval s = Some h -> (1 <= h < nextId s)%nat;
  wf_distinct : forall h h', simulationInterval s = Some h ->
                             progressInterval s = Some h' -> h <> h';
  wf_next : (1 <= nextId s)%nat
}.

(** Timers by kind. *)
Definition isSim (t : Timer) : bool :=
  match tkind t with SimTimer _ => true | PollTimer _ => false end.

Definition isPoll (t : Timer) : bool :=
  match tkind t with SimTimer _ => false | PollTimer _ => true end.

Definition is_start (ev : Event) : bool :=
  match ev with StartPolling _ _ => true | _ => false end.

(** The events of one run: no further call of [startProgressPolling]. *)
Definition same_run (evs : list Event) : bool :=
  forallb (fun ev => negb (is_start ev)) evs.

Definition with_status (st : TaskStatus) (task : Task) : Task :=
  {| status := st; progress := progress task;
     current_step := current_step task;
     completed_steps := completed_steps task; error := error task |}.

Definition simTimers (s : State) : list Timer := List.filter isSim (timers s).
Definition pollTimers (s : State) : list Timer := List.filter isPoll (timers s).





(** *** Reports and schedules used in the concrete runs *)

Definition task_running_40 : Task :=
  {| status := StRunning; progress := Some 40%Q;
     current_step := Some "classifier"%string;
     completed_steps := None; error := None |}.


Definition task_no_progress : Task :=
  {| status := StRunning; progress := None; current_step := None;
     completed_steps := None; error := None |}.

Definition task_running_10 : Task :=
  {| status := StRunning; progress := Some 10%Q; current_step := None;
     completed_steps := None; error := None |}.

Definition task_completed_output : Task :=
  {| status := StCompleted; progress := Some 100%Q;
     current_step := Some "output"%string;
     completed_steps := None; error := None |}.

(** A run up to its first poll: 40 ticks of the simulation, then the polling
    interval fires at 2000ms. *)
Definition first_poll : list Event :=
  StartPolling "t1" 0 :: ticks 1 0 40 ++ [TimerFire 2 2000].

(** A run whose first poll (at 2000ms) reports no progress and whose second
    poll is issued at 4000ms, with the simulation ticking every 50ms. *)
Definition sim_until_4000 : list Event :=
  StartPolling "t1" 0 :: ticks 1 0 40
    ++ [TimerFire 2 2000; PollSettle (Some task_no_progress)]
    ++ ticks 1 2000 40 ++ [TimerFire 2 4000].

(** A run in which no status fetch is ever answered: 240 ticks, 12000ms. *)
Definition sim_until_12000 : list Event :=
  StartPolling "t1" 0 :: ticks 1 0 240.

End Script.

(** ** The ProcessingPipeline component *)
Module Pipeline.

Inductive StepStatus := pending | active | completed.

#[global] Instance StepStatus_eq_dec : EqDecision StepStatus.
Proof. solve_decision. Defined.

(** The [id] of each entry of the [steps] array. *)
Definition steps : list string :=
  ["router"; "extractor"; "classifier"; "labeler"; "quality"; "output"]%string.

Definition stepDuration : Z := 1500.
Definition progressInterval : Z := 50.

(** The functions handed to [setInterval] / [setTimeout] by the effect. *)
Inductive Callback :=
| ProgressTick (stepIndex : nat) (currentProgress : Q)
    (* the interval of [startStep(stepIndex)] and its [currentProgress] *)
| StepDone (stepIndex : nat)
    (* the [stepTimer] timeout of [startStep(stepIndex)] *)
| NextStep (stepIndex : nat)
    (* the inner 200ms timeout: [startStep(stepIndex + 1)] *)
| CallOnComplete
    (* [() => onComplete()] *).

Record Timer := { tid : nat; due : Z; cb : Callback }.

Record State := {
  now : Z;                         (* time of the last callback *)
  timers : list Timer;             (* scheduled and not cleared *)
  nextId : nat;
  (* component state *)
  currentStep : nat;
  progress : Q;
  status : string;
  stepStatuses : list StepStatus;
  isCompleted : bool;
  (* variables of the effect *)
  progressTimer : option nat;
  stepTimer : option nat;
  (* the [onComplete] prop *)
  hasOnComplete : bool;
  onCompleteCalls : nat
}.

Definition nsteps : Q := inject_Z (Z.of_nat (length steps)).

Definition targetProgress (stepIndex : nat) : Q :=
  (inject_Z (Z.of_nat stepIndex) + 1) / nsteps * 100.

Definition startProgress (stepIndex : nat) : Q :=
  inject_Z (Z.of_nat stepIndex) / nsteps * 100.

Definition progressIncrement (stepIndex : nat) : Q :=
  (targetProgress stepIndex - startProgress stepIndex)
  / (inject_Z stepDuration / inject_Z progressInterval).

(** [clearInterval] / [clearTimeout]: one pool of handles. *)
Definition clearTimer (h : option nat) (ts : list Timer) : list Timer :=
  match h with
  | Some n => filter (fun t => tid t <> n) ts
  | None => ts
  end.

Definition truthy_handle (h : option nat) : bool :=
  match h with
  | Some (S _) => true
  | _ => false
  end.

Definition startStep (stepIndex : nat) (s : State) : State :=
  if (length steps <=? stepIndex)%nat then
    (* All steps completed *)
    {| now := now s;
       timers := if hasOnComplete s
                 then timers s ++ [ {| tid := nextId s; due := now s + 500;
                                       cb := CallOnComplete |} ]
                 else timers s;
       nextId := if hasOnComplete s then S (nextId s) else nextId s;
       currentStep := currentStep s;
       progress := 100;
       status := "Completed";
       stepStatuses := stepStatuses s;
       isCompleted := true;
       progressTimer := progressTimer s; stepTimer := stepTimer s;
       hasOnComplete := hasOnComplete s;
       onCompleteCalls := onCompleteCalls s |}
  else
    {| now := now s;
       timers := timers s
         ++ [ {| tid := nextId s; due := now s + progressInterval;
                 cb := ProgressTick stepIndex (startProgress stepIndex) |};
              {| tid := S (nextId s); due := now s + stepDuration;
                 cb := StepDone stepIndex |} ];
       nextId := S (S (nextId s));
       currentStep := stepIndex;
       progress := progress s;
       status := status s;
       stepStatuses := <[stepIndex := active]> (stepStatuses s);
       isCompleted := isCompleted s;
       progressTimer := Some (nextId s); stepTimer := Some (S (nextId s));
       hasOnComplete := hasOnComplete s;
       onCompleteCalls := onCompleteCalls s |}.

Definition set_timers (ts : list Timer) (s : State) : State :=
  {| now := now s; timers := ts; nextId := nextId s;
     currentStep := currentStep s; progress := progress s; status := status s;
     stepStatuses := stepStatuses s; isCompleted := isCompleted s;
     progressTimer := progressTimer s; stepTimer := stepTimer s;
     hasOnComplete := hasOnComplete s; onCompleteCalls := onCompleteCalls s |}.

Definition set_now (t : Z) (s : State) : State :=
  {| now := t; timers := timers s; nextId := nextId s;
     currentStep := currentStep s; progress := progress s; status := status s;
     stepStatuses := stepStatuses s; isCompleted := isCompleted s;
     progressTimer := progressTimer s; stepTimer := stepTimer s;
     hasOnComplete := hasOnComplete s; onCompleteCalls := onCompleteCalls s |}.

(** The interval callback of [startStep(stepIndex)]. The interval stays
    scheduled with its updated [currentProgress] unless the handle in
    [progressTimer] is its own and the target is reached. *)
Definition progressTick (t : Timer) (stepIndex : nat) (cur : Q) (s : State) : State :=
  let cur1 := (cur + progressIncrement stepIndex)%Q in
  let reached := Qle_bool (targetProgress stepIndex) cur1 in
  let cur2 := if reached then targetProgress stepIndex else cur1 in
  let again := {| tid := tid t; due := due t + progressInterval;
                  cb := ProgressTick stepIndex cur2 |} in
  let ts1 := (fun x => if decide (tid x = tid t) then again else x) <$> timers s in
  let ts2 := if reached then clearTimer (progressTimer s) ts1 else ts1 in
  {| now := now s; timers := ts2; nextId := nextId s;
     currentStep := currentStep s; progress := cur2; status := status s;
     stepStatuses := stepStatuses s; isCompleted := isCompleted s;
     progressTimer := progressTimer s; stepTimer := stepTimer s;
     hasOnComplete := hasOnComplete s; onCompleteCalls := onCompleteCalls s |}.

(** The [stepTimer] callback. *)
Definition stepDone (stepIndex : nat) (s : State) : State :=
  {| now := now s;
     timers := timers s ++ [ {| tid := nextId s; due := now s + 200;
                                cb := NextStep stepIndex |} ];
     nextId := S (nextId s);
     currentStep := currentStep s; progress := progress s; status := status s;
     stepStatuses := <[stepIndex := completed]> (stepStatuses s);
     isCompleted := isCompleted s;
     progressTimer := progressTimer s; stepTimer := stepTimer s;
     hasOnComplete := hasOnComplete s; onCompleteCalls := onCompleteCalls s |}.

Definition callOnComplete (s : State) : State :=
  {| now := now s; timers := timers s; nextId := nextId s;
     currentStep := currentStep s; progress := progress s; status := status s;
     stepStatuses := stepStatuses s; isCompleted := isCompleted s;
     progressTimer := progressTimer s; stepTimer := stepTimer s;
     hasOnComplete := hasOnComplete s; onCompleteCalls := S (onCompleteCalls s) |}.

(** The timer the event loop runs next: the earliest due, the oldest handle
    among equals. *)
Definition earlier (a b : Timer) : bool :=
  (due a <? due b) || ((due a =? due b) && (tid a <=? tid b)%nat).

Definition next_timer (ts : list Timer) : option Timer :=
  match ts with
  | [] => None
  | t :: ts' => Some (fold_left (fun m x => if earlier m x then m else x) ts' t)
  end.

(** A timeout is gone once it has fired. *)
Definition expire (t : Timer) (s : State) : State :=
  set_timers (filter (fun x => tid x <> tid t) (timers s)) s.

Definition fire (s : State) : State :=
  match next_timer (timers s) with
  | None => s
  | Some t =>
      let s1 := set_now (due t) s in
      match cb t with
      | ProgressTick i cur => progressTick t i cur s1
      | StepDone i => stepDone i (expire t s1)
      | NextStep i => startStep (S i) (expire t s1)
      | CallOnComplete => callOnComplete (expire t s1)
      end
  end.

(** The function the effect returns. *)
Definition cleanup (s : State) : State :=
  let ts1 := if truthy_handle (progressTimer s)
             then clearTimer (progressTimer s) (timers s) else timers s in
  let ts2 := if truthy_handle (stepTimer s)
             then clearTimer (stepTimer s) ts1 else ts1 in
  set_timers ts2 s.

(** First render and first run of the effect. *)
Definition mount (autoStart withOnComplete : bool) : State :=
  let s0 := {| now := 0; timers := []; nextId := 1;
               currentStep := 0; progress := 0; status := "In Progress";
               stepStatuses := (fun _ => pending) <$> steps;
               isCompleted := false;
               progressTimer := None; stepTimer := None;
               hasOnComplete := withOnComplete; onCompleteCalls := 0 |} in
  if autoStart then startStep 0 s0 else s0.

Inductive Event :=
| Fire      (* the event loop runs the next due timer *)
| Cleanup   (* React runs the cleanup of the effect *).

Definition step (ev : Event) (s : State) : State :=
  match ev with
  | Fire => fire s
  | Cleanup => cleanup s
  end.

Definition run (evs : list Event) (s : State) : State :=
  fold_left (fun acc ev => step ev acc) evs s.



Definition completion_pending (ts : list Timer) : bool :=
  existsb (fun t => match cb t with CallOnComplete => true | _ => false end) ts.



End Pipeline.

(** ** simulateQuickProgress: the display for a synchronous upload result *)
Module Quick.
Import Script.

(** The variables of one call: the two counters of the closure, whether its
    300ms interval is still scheduled, and how often [callback] has been
    handed to [setTimeout(callback, 500)]. *)
Record QuickEnv := {
  currentStep : nat;
  progress : Q;
  scheduled : bool;
  callbacks : nat
}.

Definition start : QuickEnv :=
  {| currentStep := 0; progress := 0; scheduled := true; callbacks := 0 |}.

(** One run of the interval callback. [hasBar] says whether both progress
    elements are found in the document. *)
Definition quickTick (hasBar : bool) (qd : QuickEnv * Document)
  : QuickEnv * Document :=
  let '(q, d) := qd in
  if negb (scheduled q) then (q, d) else
  (* Update progress bar *)
  let p := if hasBar
           then (if Qle_bool (progress q + 15) 100 then progress q + 15 else 100)%Q
           else progress q in
  let d1 := if hasBar then setBar p (round p) d else d in
  (* Update steps *)
  let cs := currentStep q in
  let '(cs', d2) :=
    if (cs <? length steps)%nat then
      let d' := if (0 <? cs)%nat then updateStepAt (cs - 1) Completed d1 else d1 in
      (S cs, updateStepAt cs Active d')
    else (cs, d1) in
  (* When done, mark all as completed and call callback *)
  if Qle_bool 100 p && (length steps <=? cs')%nat then
    ({| currentStep := cs'; progress := p; scheduled := false;
        callbacks := S (callbacks q) |}, completeAll d2)
  else
    ({| currentStep := cs'; progress := p; scheduled := scheduled q;
        callbacks := callbacks q |}, d2).

Fixpoint quickTicks (hasBar : bool) (n : nat) (qd : QuickEnv * Document)
  : QuickEnv * Document :=
  match n with
  | O => qd
  | S k => quickTicks hasBar k (quickTick hasBar qd)
  end.

(** The stage the callback made Active last, if any, is the only Active one. *)
Definition quick_owns_active (qd : QuickEnv * Document) : Prop :=
  forall i, stageAt i (snd qd) = Some Active -> S i = currentStep (fst qd).

End Quick.

(** ** What ProcessingPipeline renders *)
Module PipelineView.
Import Pipeline.

(** [getStepStatus]: the status a step is drawn with. An index the array
    does not have reads [undefined], here [None]. *)
Definition getStepStatus (index : nat) (s : State) : option StepStatus :=
  if (index <? currentStep s)%nat then Some completed
  else if (index =? currentStep s)%nat then stepStatuses s !! index
  else Some pending.




(** No completion call is scheduled or made. *)
Definition silent (s : State) : Prop :=
  hasOnComplete s = false /\ completion_pending (timers s) = false /\
  onCompleteCalls s = 0%nat.

(** The progress value is within [0, 100] and does not fall on the next
    callback. *)
Definition progress_ok (s : State) : bool :=
  Qle_bool 0 (progress s) && Qle_bool (progress s) 100
  && Qle_bool (progress s) (progress (fire s)).

(** [progress_ok] along the next [k] callbacks. *)
Fixpoint trace_ok (k : nat) (s : State) : bool :=
  match k with
  | O => true
  | S k' => progress_ok s && trace_ok k' (fire s)
  end.

End PipelineView.

(** ** File name and file size helpers of the page script *)
Module Files.
Import Stdlib.Strings.Ascii.

(** [String.prototype.toLowerCase] on the ASCII letters.  The lookups below
    compare the result with ASCII keys only, and no character outside ASCII
    lower-cases to a letter of those keys, so leaving the other bytes alone
    does not change what is found. *)
Definition lower_ascii (c : ascii) : ascii :=
  let n := nat_of_ascii c in
  if (65 <=? n)%nat && (n <=? 90)%nat then ascii_of_nat (n + 32) else c.

Fixpoint toLowerCase (s : string) : string :=
  match s with
  | EmptyString => EmptyString
  | String c r => String (lower_ascii c) (toLowerCase r)
  end.

Definition is_dot (c : ascii) : bool := Ascii.eqb c "."%char.

Fixpoint has_dot (s : string) : bool :=
  match s with
  | EmptyString => false
  | String c r => is_dot c || has_dot r
  end.

(** [filename.split('.').pop()]: what follows the last dot, the whole name
    when it has none. *)
Fixpoint last_segment (s : string) : string :=
  match s with
  | EmptyString => EmptyString
  | String c r =>
      if has_dot r then last_segment r
      else if is_dot c then r else String c r
  end.

(** The [icons] object literal. *)
Definition icons : list (string * string) :=
  [ ("pdf", "📄"); ("txt", "📝"); ("docx", "📘"); ("doc", "📘");
    ("jpg", "🖼️"); ("jpeg", "🖼️"); ("png", "🖼️"); ("gif", "🖼️");
    ("mp3", "🎵"); ("wav", "🎵"); ("flac", "🎵"); ("m4a", "🎵");
    ("mp4", "🎬"); ("avi", "🎬"); ("mov", "🎬") ]%string.

Fixpoint own_property (key : string) (o : list (string * string)) : option string :=
  match o with
  | [] => None
  | (k, v) :: o' => if String.eqb k key then Some v else own_property key o'
  end.

(** What [icons[ext] || '📎'] evaluates to: a glyph of the table, the
    fallback, or, for the two lower-case names every object inherits
    (both truthy), the inherited value. *)
Inductive IconValue :=
| Glyph (g : string)
| Inherited (key : string).

Definition inherited_keys : list string := ["constructor"; "__proto__"]%string.

Definition getFileIcon (filename : string) : IconValue :=
  let ext := toLowerCase (last_segment filename) in
  match own_property ext icons with
  | Some g => Glyph g
  | None =>
      if existsb (String.eqb ext) inherited_keys then Inherited ext
      else Glyph "📎"
  end.

(** [formatFileSize]: the number printed and the unit read from [sizes]
    ([None] where [sizes[i]] is [undefined]).  [bytes] is a file size, a
    natural number; the quotient of the two logarithms is taken exactly. *)
Definition sizes : list string := ["Bytes"; "KB"; "MB"; "GB"]%string.

Definition unitIndex (bytes : N) : N := (N.log2 bytes / 10)%N.

Definition formatFileSize (bytes : N) : Q * option string :=
  if (bytes =? 0)%N then (0%Q, Some "Bytes"%string)
  else
    let i := unitIndex bytes in
    let scaled := (inject_Z (Z.of_N bytes) / inject_Z (1024 ^ Z.of_N i) * 100)%Q in
    ((inject_Z (Script.round scaled) / 100)%Q, sizes !! N.to_nat i).

End Files.

(** ** Search and filter of the label cards *)
Module Labels.

(** A [.label-visual-card] element: its two data attributes (absent ones
    read as [undefined]), its text and whether it carries the class
    [hidden]. *)
Record Card := {
  labelKey : option string;
  valueType : option string;
  textContent : string;
  hidden : bool
}.

(** The controls: the value of the search box when it exists and, when a
    filter button is active, its [data-filter] attribute. *)
Record Controls := {
  searchInput : option string;
  activeFilter : option (option string)
}.

(** [x || ''] for a string or [undefined]. *)
Definition or_empty (x : option string) : string :=
  match x with
  | Some s => s
  | None => ""%string
  end.

(** [String.prototype.includes]. *)
Fixpoint includes (s term : string) : bool :=
  String.prefix term s
  || match s with
     | EmptyString => false
     | String _ r => includes r term
     end.

Section WithLower.
(** [String.prototype.toLowerCase]. *)
Variable toLowerCase : string -> string.

Definition filterType (c : Controls) : option string :=
  match activeFilter c with
  | Some d => d
  | None => Some "all"%string
  end.

Definition searchTerm (c : Controls) : string :=
  match searchInput c with
  | Some v => toLowerCase v
  | None => ""%string
  end.

Definition matchesFilter (c : Controls) (card : Card) : bool :=
  bool_decide (filterType c = Some "all"%string)
  || bool_decide (Some (or_empty (valueType card)) = filterType c).

Definition matchesSearch (c : Controls) (card : Card) : bool :=
  String.eqb (searchTerm c) ""
  || includes (or_empty (labelKey card)) (searchTerm c)
  || includes (toLowerCase (textContent card)) (searchTerm c).

(** The condition under which a card loses the class [hidden]. *)
Definition shown (c : Controls) (card : Card) : bool :=
  matchesFilter c card && matchesSearch c card.

Definition set_hidden (h : bool) (card : Card) : Card :=
  {| labelKey := labelKey card; valueType := valueType card;
     textContent := textContent card; hidden := h |}.

(** One round of the [forEach] of [filterLabels]: the counter and the cards
    visited so far. *)
Definition visit (c : Controls) (acc : nat * list Card) (card : Card)
  : nat * list Card :=
  if shown c card
  then (S (fst acc), snd acc ++ [set_hidden false card])
  else (fst acc, snd acc ++ [set_hidden true card]).

(** [updateLabelCount]: the two numbers written to the counters (each one
    only if its element exists); with an argument missing both are counted
    from the cards. *)
Definition updateLabelCount (visible total : option nat) (cards : list Card)
  : nat * nat :=
  match visible, total with
  | Some v, Some t => (v, t)
  | _, _ => (length (filter (fun card => hidden card = false) cards), length cards)
  end.

(** [filterLabels]: the cards afterwards and the numbers written. *)
Definition filterLabels (c : Controls) (cards : list Card)
  : list Card * (nat * nat) :=
  let '(visibleCount, cards') := fold_left (visit c) cards (0%nat, []) in
  (cards', updateLabelCount (Some visibleCount) (Some (length cards)) cards').

End WithLower.

(** Three cards and two states of the search box, the second with more
    typed than the first. *)
Definition sample_cards : list Card :=
  [ {| labelKey := Some "name"; valueType := Some "text";
       textContent := "Name Ada"; hidden := false |};
    {| labelKey := Some "tags"; valueType := Some "array";
       textContent := "Tags banana"; hidden := false |};
    {| labelKey := Some "year"; valueType := Some "text";
       textContent := "Year 1843"; hidden := true |} ]%string.

Definition search_na : Controls :=
  {| searchInput := Some "na"%string; activeFilter := None |}.

Definition search_Name : Controls :=
  {| searchInput := Some "Name"%string; activeFilter := None |}.

End Labels.

(** ** The statistics counter of the home page *)
Module Home.

(** [Math.min(elapsed / duration, 1)]. *)
Definition progressAt (startTime duration currentTime : Q) : Q :=
  Qmin ((currentTime - startTime) / duration) 1.

Definition easeOutQuart (progress : Q) : Q := (1 - (1 - progress) ^ 4)%Q.

(** One call of [update]: the number written to the element (followed by a
    percent sign when the element's text had one) and whether another
    animation frame is requested.  Times and the eased value are taken
    exactly. *)
Definition update (startTime : Q) (start end_ : Z) (duration currentTime : Q)
  : Z * bool :=
  let progress := progressAt startTime duration currentTime in
  let current :=
    Qfloor (inject_Z start
            + (inject_Z end_ - inject_Z start) * easeOutQuart progress) in
  (current, negb (Qle_bool 1 progress)).

(** [animateNumber] over the timestamps the browser passes to successive
    frames: the numbers written, in order. *)
Fixpoint animateNumber (startTime : Q) (start end_ : Z) (duration : Q)
  (frames : list Q) : list Z :=
  match frames with
  | [] => []
  | t :: rest =>
      let '(current, again) := update startTime start end_ duration t in
      current :: (if again then animateNumber startTime start end_ duration rest
                  else [])
  end.

End Home.

(** ** Invariants of the page script *)
Module ScriptInv.
Import Script.

(** What every [runSimulation] closure satisfies between two callbacks. *)
Definition env_ok (env : SimEnv) : Prop :=
  (currentStepIndex env <= 5)%nat /\ isTransitioning env = false /\
  (0 <= lastProgress env)%Q.

Definition closures_ok (s : State) : Prop :=
  forall r env, closures s !! r = Some env -> env_ok env.

(** The percentage label is the rounded bar width. *)
Definition label_ok (d : Document) : Prop := text d = round (width d).

(** A report that ends the run. *)
Definition is_report (st : TaskStatus) (ev : Event) : Prop :=
  exists task, ev = PollSettle (Some task) /\ status task = st.


End ScriptInv.

(** ** Properties of the page script *)
Module ScriptFacts.
Import Script.

Ltac wf_cases s H :=
  destruct H as [[tk Ht] Hs Hp Hd Hn];
  destruct s as [pI sI ts nI cl d fl ce]; simpl in *;
  unfold simEntry, pollEntry in Ht; simpl in Ht; subst ts;
  destruct sI as [hs|], pI as [hp|];
  [ pose proof (Hs _ eq_refl); pose proof (Hp _ eq_refl);
    pose proof (Hd _ _ eq_refl eq_refl)
  | pose proof (Hs _ eq_refl)
  | pose proof (Hp _ eq_refl)
  | ];
  try (destruct hs as [|hs]; [lia|]); try (destruct hp as [|hp]; [lia|]).

Ltac wf_done tk :=
  split; simpl;
  [ exists tk; unfold simEntry, pollEntry; simpl;
    repeat (case_decide; simpl); try congruence; try reflexivity
  | intros ? [=]; subst; lia
  | intros ? [=]; subst; lia
  | intros ? ? [=] [=]; subst; lia
  | lia ].

Lemma wf_loaded : wf loaded.
Proof. wf_done ""%string. Qed.

Lemma wf_with_doc f s : wf s -> wf (with_doc f s).
Proof. intros [H1 H2 H3 H4 H5]. split; assumption. Qed.

Lemma wf_set_inflight n s : wf s -> wf (set_inflight n s).
Proof. intros [H1 H2 H3 H4 H5]. split; assumption. Qed.

Lemma wf_handleFailure s : wf s -> wf (handleFailure s).
Proof. intros [H1 H2 H3 H4 H5]. split; assumption. Qed.

Lemma wf_stopSimulation s : wf s -> wf (stopSimulation s).
Proof.
  intros H. wf_cases s H; unfold stopSimulation; simpl;
    rewrite ?filter_cons, ?filter_nil; simpl; wf_done tk.
Qed.

Lemma wf_stopPolling s : wf s -> wf (stopPolling s).
Proof.
  intros H. wf_cases s H; unfold stopPolling; simpl;
    rewrite ?filter_cons, ?filter_nil; simpl; wf_done tk.
Qed.

Lemma wf_simTick r now s : wf s -> wf (simTick r now s).
Proof.
  intros H. unfold simTick.
  destruct (closures s !! r) as [env|]; [|exact H].
  destruct (runSimulation now (env, doc s)) as [env' d'].
  destruct H as [[tk Ht] Hs Hp Hd Hn]. split; simpl; try assumption.
  exists tk. rewrite Ht. unfold simEntry, pollEntry; simpl.
  rewrite length_insert. reflexivity.
Qed.

(** After a call of [startProgressPolling] the table holds the two new
    intervals and nothing else. *)
Lemma start_timers taskId now s :
  wf s ->
  timers (startProgressPolling taskId now s) =
    [ {| tid := nextId s; tkind := SimTimer (length (closures s)); tinterval := 50 |};
      {| tid := S (nextId s); tkind := PollTimer taskId; tinterval := 2000 |} ].
Proof.
  intros H. unfold startProgressPolling.
  destruct (runSimulation now _) as [env1 d3]. simpl.
  wf_cases s H; simpl;
    repeat (rewrite ?filter_cons, ?filter_nil; simpl; try case_decide);
    try congruence; reflexivity.
Qed.

Lemma wf_startProgressPolling taskId now s :
  wf s -> wf (startProgressPolling taskId now s).
Proof.
  intros H. pose proof (start_timers taskId now s H) as Ht.
  revert Ht. unfold startProgressPolling.
  destruct (runSimulation now _) as [env1 d3]. simpl. intros Ht.
  destruct H as [_ _ _ _ Hn]. split; simpl.
  - exists taskId. rewrite Ht. unfold simEntry, pollEntry; simpl.
    rewrite length_app, Nat.add_1_r. reflexivity.
  - intros ? [=]; subst. lia.
  - intros ? [=]; subst. lia.
  - intros ? ? [=] [=]; subst. lia.
  - lia.
Qed.

Lemma wf_applySample task s : wf s -> wf (applySample task s).
Proof.
  intros H. unfold applySample.
  destruct (positive_progress task); [|exact H].
  apply wf_with_doc, wf_stopSimulation, H.
Qed.

Lemma wf_handleTask task s : wf s -> wf (handleTask task s).
Proof.
  intros H. unfold handleTask.
  pose proof (wf_applySample task s H).
  destruct (status task);
    auto using wf_with_doc, wf_stopSimulation, wf_stopPolling.
Qed.

Lemma wf_step ev s : wf s -> wf (step ev s).
Proof.
  intros H. destruct ev as [taskId now|h now|r|]; simpl.
  - apply wf_startProgressPolling, H.
  - destruct (find_timer h (timers s)) as [t|]; [|exact H].
    destruct (tkind t); auto using wf_simTick, wf_set_inflight.
  - destruct (inflight s); [exact H|].
    destruct r; auto using wf_handleTask, wf_handleFailure, wf_set_inflight.
  - apply wf_with_doc, H.
Qed.

Lemma wf_run_from evs s : wf s -> wf (run evs s).
Proof.
  revert s. induction evs as [|ev evs IH]; intros s H; simpl; [exact H|].
  apply IH, wf_step, H.
Qed.

Lemma wf_run evs : wf (run evs loaded).
Proof. apply wf_run_from, wf_loaded. Qed.

(** C10. Every call of [startProgressPolling] cancels the intervals the two
    handles name before it schedules new ones: in every state reachable from
    the loaded page at most one simulation interval and at most one polling
    interval are scheduled, each is the one its handle names (the simulation
    interval runs the closure of the latest call), and right after a call the
    table holds exactly the two new intervals, so none of an earlier run is
    left to fire: a handle handed out before the call fires nothing. *)
Theorem C10_single_timer_pair (evs : list Event) :
  let s := run evs loaded in
  (length (simTimers s) <= 1)%nat /\ (length (pollTimers s) <= 1)%nat /\
  (forall t, t ∈ timers s ->
     match tkind t with
     | SimTimer r => simulationInterval s = Some (tid t) /\
                     r = pred (length (closures s))
     | PollTimer _ => progressInterval s = Some (tid t)
     end) /\
  (forall taskId now,
     timers (startProgressPolling taskId now s) =
       [ {| tid := nextId s; tkind := SimTimer (length (closures s));
            tinterval := 50 |};
         {| tid := S (nextId s); tkind := PollTimer taskId;
            tinterval := 2000 |} ]) /\
  (forall taskId now h now', (h < nextId s)%nat ->
     step (TimerFire h now') (startProgressPolling taskId now s)
     = startProgressPolling taskId now s).
Proof.
  intros s. pose proof (wf_run evs) as H. fold s in H.
  split; [|split; [|split; [|split]]].
  - destruct H as [[tk Ht] _ _ _ _]. unfold simTimers. rewrite Ht.
    unfold simEntry, pollEntry.
    destruct (simulationInterval s), (progressInterval s); simpl; lia.
  - destruct H as [[tk Ht] _ _ _ _]. unfold pollTimers. rewrite Ht.
    unfold simEntry, pollEntry.
    destruct (simulationInterval s), (progressInterval s); simpl; lia.
  - destruct H as [[tk Ht] _ _ _ _]. rewrite Ht.
    unfold simEntry, pollEntry. intros t Hin.
    destruct (simulationInterval s), (progressInterval s); simpl in Hin;
      repeat (apply elem_of_cons in Hin as [->|Hin]; [simpl; auto|]);
      apply elem_of_nil in Hin; contradiction.
  - intros taskId now. apply start_timers, H.
  - intros taskId now h now' Hh. cbn [step].
    rewrite (start_timers taskId now s H). unfold find_timer.
    repeat (rewrite ?filter_cons, ?filter_nil; simpl; try case_decide);
      try lia; reflexivity.
Qed.

(** *** Firing a timer *)

Lemma find_timer_nil h : find_timer h [] = None.
Proof. reflexivity. Qed.


Lemma stopSimulation_none s : wf s -> simulationInterval (stopSimulation s) = None.
Proof.
  intros H. unfold stopSimulation.
  destruct (simulationInterval s) as [[|h]|] eqn:E; simpl; try reflexivity; try exact E.
  apply (wf_sim s H) in E. lia.
Qed.

Lemma stopSimulation_keeps_none s :
  simulationInterval s = None -> stopSimulation s = s.
Proof. intros H. unfold stopSimulation. rewrite H. reflexivity. Qed.

Lemma simTick_handles r now s :
  simulationInterval (simTick r now s) = simulationInterval s /\
  progressInterval (simTick r now s) = progressInterval s /\
  timers (simTick r now s) = timers s /\
  inflight (simTick r now s) = inflight s.
Proof.
  unfold simTick. destruct (closures s !! r); [|auto].
  destruct (runSimulation now _). simpl. auto.
Qed.

Lemma applySample_sim_none task p s :
  wf s -> positive_progress task = Some p ->
  simulationInterval (applySample task s) = None.
Proof.
  intros H Hp. unfold applySample. rewrite Hp. simpl.
  apply stopSimulation_none, H.
Qed.

Lemma applySample_keeps_none task s :
  simulationInterval s = None -> simulationInterval (applySample task s) = None.
Proof.
  intros H. unfold applySample. destruct (positive_progress task); [|exact H].
  rewrite (stopSimulation_keeps_none s H). exact H.
Qed.

Lemma handleTask_sim_none task s :
  simulationInterval (applySample task s) = None ->
  simulationInterval (handleTask task s) = None.
Proof.
  intros H. unfold handleTask. destruct (status task); simpl;
    rewrite ?(stopSimulation_keeps_none _ H); exact H.
Qed.

Lemma sim_none_step ev s :
  is_start ev = false -> simulationInterval s = None ->
  simulationInterval (step ev s) = None.
Proof.
  intros Hev H. destruct ev as [taskId now|h now|r|]; simpl in *; try discriminate.
  - destruct (find_timer h (timers s)) as [t|]; [|exact H].
    destruct (tkind t) as [r|tk]; [|exact H].
    destruct (simTick_handles r now s) as [-> _]. exact H.
  - destruct (inflight s); [exact H|]. destruct r; [|exact H].
    apply handleTask_sim_none, applySample_keeps_none, H.
  - exact H.
Qed.

Lemma sim_none_run evs s :
  same_run evs = true -> simulationInterval s = None ->
  simulationInterval (run evs s) = None.
Proof.
  revert s. induction evs as [|ev evs IH]; intros s Hevs H; simpl in *; [exact H|].
  apply andb_prop in Hevs as [Hev Hevs].
  apply IH; [exact Hevs|]. apply sim_none_step; [|exact H].
  destruct (is_start ev); [discriminate|reflexivity].
Qed.

(** With no simulation handle, whatever fires is the polling interval. *)
Lemma fire_without_sim h now s :
  wf s -> simulationInterval s = None ->
  doc (step (TimerFire h now) s) = doc s /\
  closures (step (TimerFire h now) s) = closures s.
Proof.
  intros [[tk Ht] _ _ _ _] H. simpl. rewrite Ht.
  unfold simEntry, pollEntry. rewrite H. simpl.
  destruct (progressInterval s) as [hp|]; [|auto].
  unfold find_timer. rewrite filter_cons, filter_nil. simpl.
  case_decide; simpl; auto.
Qed.

(** C4. Once a report with [progress > 0] has been handled, the simulation
    handle is null and no simulation interval is scheduled, and this stays
    so for the rest of the run: any timer that fires afterwards changes
    neither the document nor a simulator variable. *)
Theorem C4_handoff_irreversible
    (evs evs' : list Event) (task : Task) (p : Q) (n : nat) (h : nat) (now : Z) :
  let s := run evs loaded in
  inflight s = S n ->
  positive_progress task = Some p ->
  same_run evs' = true ->
  let s' := step (PollSettle (Some task)) s in
  let s'' := run evs' s' in
  simulationInterval s' = None /\ simTimers s' = [] /\
  simulationInterval s'' = None /\ simTimers s'' = [] /\
  doc (step (TimerFire h now) s'') = doc s'' /\
  closures (step (TimerFire h now) s'') = closures s''.
Proof.
  intros s Hfl Hp Hrun s' s''.
  assert (Hwf' : wf s') by apply wf_step, wf_run.
  assert (Hwf'' : wf s'') by apply wf_run_from, Hwf'.
  assert (H' : simulationInterval s' = None).
  { unfold s'. simpl. rewrite Hfl.
    apply handleTask_sim_none, (applySample_sim_none _ p); [|exact Hp].
    apply wf_set_inflight, wf_run. }
  assert (H'' : simulationInterval s'' = None) by (apply sim_none_run; assumption).
  assert (Hno : forall x, wf x -> simulationInterval x = None -> simTimers x = []).
  { intros x [[tk Ht] _ _ _ _] Hx. unfold simTimers. rewrite Ht.
    unfold simEntry, pollEntry. rewrite Hx.
    destruct (progressInterval x); reflexivity. }
  repeat split; auto; apply fire_without_sim; assumption.
Qed.

Lemma C4_handoff_irreversible_witness :
  let s := run [StartPolling "t1" 0; TimerFire 2 2000] loaded in
  let s' := step (PollSettle (Some task_running_40)) s in
  let s'' := run [TimerFire 1 2050; TimerFire 1 2100] s' in
  simulationInterval s' = None /\ simTimers s' = [] /\
  simulationInterval s'' = None /\ simTimers s'' = [] /\
  doc (step (TimerFire 1 2150) s'') = doc s'' /\
  closures (step (TimerFire 1 2150) s'') = closures s''.
Proof.
  apply (C4_handoff_irreversible
           [StartPolling "t1" 0; TimerFire 2 2000]
           [TimerFire 1 2050; TimerFire 1 2100]
           task_running_40 40%Q 0%nat 1%nat 2150);
    reflexivity.
Defined.

(** *** Terminal and transient reports *)

Lemma poll_timer_scheduled s h :
  wf s -> progressInterval s = Some h ->
  exists taskId,
    find_timer h (timers s) =
      Some {| tid := h; tkind := PollTimer taskId; tinterval := 2000 |}.
Proof.
  intros H Hh. pose proof (wf_distinct s H) as Hd.
  destruct H as [[tk Ht] _ _ _ _]. exists tk. rewrite Ht.
  unfold simEntry, pollEntry, find_timer. rewrite Hh.
  destruct (simulationInterval s) as [hs|]; simpl;
    repeat (rewrite ?filter_cons, ?filter_nil; simpl; try case_decide);
    try reflexivity; try congruence.
  exfalso. eapply Hd; eauto.
Qed.

(** C7. A status fetch that rejects or is not ok changes nothing but the
    console: the document, the simulator variables, both handles and the
    timer table are as before, no error is shown, and the polling interval
    is still scheduled with its 2000ms period. *)
Theorem C7_transient_poll_failure (evs : list Event) (n : nat) :
  let s := run evs loaded in
  inflight s = S n ->
  let s' := step (PollSettle None) s in
  doc s' = doc s /\ closures s' = closures s /\
  timers s' = timers s /\
  progressInterval s' = progressInterval s /\
  simulationInterval s' = simulationInterval s /\
  errorsShown (doc s') = errorsShown (doc s) /\
  consoleErrors s' = S (consoleErrors s) /\
  (forall h, progressInterval s = Some h ->
     exists taskId,
       find_timer h (timers s') =
         Some {| tid := h; tkind := PollTimer taskId; tinterval := 2000 |}).
Proof.
  intros s Hfl s'. unfold s'. simpl. rewrite Hfl. simpl.
  repeat split; try reflexivity.
  intros h Hh. apply poll_timer_scheduled; [apply wf_run|exact Hh].
Qed.

Lemma C7_transient_poll_failure_witness :
  let s := run [StartPolling "t1" 0; TimerFire 2 2000] loaded in
  let s' := step (PollSettle None) s in
  doc s' = doc s /\ closures s' = closures s /\
  timers s' = timers s /\
  progressInterval s' = progressInterval s /\
  simulationInterval s' = simulationInterval s /\
  errorsShown (doc s') = errorsShown (doc s) /\
  consoleErrors s' = S (consoleErrors s) /\
  (forall h, progressInterval s = Some h ->
     exists taskId,
       find_timer h (timers s') =
         Some {| tid := h; tkind := PollTimer taskId; tinterval := 2000 |}).
Proof.
  apply (C7_transient_poll_failure [StartPolling "t1" 0; TimerFire 2 2000] 0%nat).
  reflexivity.
Defined.


Lemma stopSimulation_doc s : doc (stopSimulation s) = doc s.
Proof. unfold stopSimulation. destruct (truthy_handle _); reflexivity. Qed.



Lemma updateStepStatus_logs name st d :
  errorsShown (updateStepStatus name st d) = errorsShown d /\
  resultsShown (updateStepStatus name st d) = resultsShown d /\
  processingHidden (updateStepStatus name st d) = processingHidden d /\
  width (updateStepStatus name st d) = width d /\
  text (updateStepStatus name st d) = text d.
Proof. unfold updateStepStatus. destruct (stepEls d !! name); simpl; auto. Qed.

Lemma fold_updateStepStatus_logs st l d :
  let d' := fold_left (fun acc name => updateStepStatus name st acc) l d in
  errorsShown d' = errorsShown d /\ resultsShown d' = resultsShown d /\
  processingHidden d' = processingHidden d /\
  width d' = width d /\ text d' = text d.
Proof.
  revert d. induction l as [|x l IH]; intros d; simpl; [auto 6|].
  destruct (IH (updateStepStatus x st d)) as (-> & -> & -> & -> & ->).
  apply updateStepStatus_logs.
Qed.

Lemma updateStepAt_logs i st d :
  errorsShown (updateStepAt i st d) = errorsShown d /\
  resultsShown (updateStepAt i st d) = resultsShown d /\
  processingHidden (updateStepAt i st d) = processingHidden d /\
  width (updateStepAt i st d) = width d /\
  text (updateStepAt i st d) = text d.
Proof.
  unfold updateStepAt. destruct (steps !! i); [apply updateStepStatus_logs|auto 6].
Qed.

Lemma completeBelow_logs n d :
  errorsShown (completeBelow n d) = errorsShown d /\
  resultsShown (completeBelow n d) = resultsShown d /\
  processingHidden (completeBelow n d) = processingHidden d /\
  width (completeBelow n d) = width d /\
  text (completeBelow n d) = text d.
Proof.
  unfold completeBelow. generalize (seq 0 n). intros l. revert d.
  induction l as [|x l IH]; intros d; simpl; [auto 6|].
  destruct (IH (updateStepAt x Completed d)) as (-> & -> & -> & -> & ->).
  apply updateStepAt_logs.
Qed.

Lemma updateProgress_logs task d :
  errorsShown (updateProgress task d) = errorsShown d /\
  resultsShown (updateProgress task d) = resultsShown d /\
  processingHidden (updateProgress task d) = processingHidden d.
Proof.
  unfold updateProgress.
  set (d1 := setBar _ _ d).
  set (d2 := match truthy_str (current_step task) with
             | Some name => updateStepStatus name Active d1
             | None => d1 end).
  assert (H2 : errorsShown d2 = errorsShown d /\ resultsShown d2 = resultsShown d
               /\ processingHidden d2 = processingHidden d).
  { unfold d2. destruct (truthy_str _); [|auto].
    destruct (updateStepStatus_logs s Active d1) as (-> & -> & -> & _). auto. }
  destruct H2 as (E1 & E2 & E3).
  destruct (completed_steps task) as [l|]; [|auto].
  destruct (fold_updateStepStatus_logs Completed l d2) as (-> & -> & -> & _). auto.
Qed.

Lemma applySample_logs task s :
  errorsShown (doc (applySample task s)) = errorsShown (doc s) /\
  resultsShown (doc (applySample task s)) = resultsShown (doc s).
Proof.
  unfold applySample. destruct (positive_progress task) as [p|]; [|auto].
  simpl. rewrite stopSimulation_doc.
  match goal with
  | |- context [updateProgress task ?d] =>
      destruct (updateProgress_logs task d) as (-> & -> & _)
  end.
  destruct (_ <? _)%nat;
    [destruct (updateStepAt_logs (estimatedStep p) Active
                 (completeBelow (estimatedStep p) (doc s))) as (-> & -> & _)|];
    destruct (completeBelow_logs (estimatedStep p) (doc s)) as (-> & -> & _);
    auto.
Qed.


Lemma applySample_status st task s :
  applySample (with_status st task) s = applySample task s.
Proof. reflexivity. Qed.





(** *** What is written to the progress bar *)

Lemma updateProgress_width task d :
  width (updateProgress task d) = clamp100 (default 0%Q (progress task)).
Proof.
  unfold updateProgress.
  set (p := clamp100 _).
  set (d1 := setBar p (round p) d).
  set (d2 := match truthy_str (current_step task) with
             | Some name => updateStepStatus name Active d1
             | None => d1 end).
  assert (H2 : width d2 = p).
  { unfold d2. destruct (truthy_str _) as [name|]; [|reflexivity].
    destruct (updateStepStatus_logs name Active d1) as (_ & _ & _ & -> & _).
    reflexivity. }
  destruct (completed_steps task) as [l|]; [|exact H2].
  destruct (fold_updateStepStatus_logs Completed l d2) as (_ & _ & _ & -> & _).
  exact H2.
Qed.

Lemma positive_progress_some task p :
  positive_progress task = Some p -> progress task = Some p /\ (0 < p)%Q.
Proof.
  unfold positive_progress. destruct (progress task) as [q|]; [|discriminate].
  destruct (Qle_bool q 0) eqn:E; [discriminate|]. intros [= ->].
  split; [reflexivity|].
  apply Qnot_le_lt. intros Hle. apply Qle_bool_iff in Hle. congruence.
Qed.

Lemma clamp100_range p : (0 <= clamp100 p /\ clamp100 p <= 100)%Q.
Proof.
  unfold clamp100. split.
  - apply Q.min_glb; [apply Q.le_max_r|discriminate].
  - apply Q.le_min_r.
Qed.

Lemma tick_above_last env elapsed :
  (lastProgress env < tickProgress env elapsed)%Q.
Proof.
  unfold tickProgress.
  destruct (Qle_bool _ (lastProgress env)) eqn:E.
  - rewrite <- (Qplus_0_r (lastProgress env)) at 1.
    apply Qplus_lt_r. reflexivity.
  - apply Qnot_le_lt. intros Hle. apply Qle_bool_iff in Hle. congruence.
Qed.

(** C1 (as amended). A report with [progress > 0] that is not the completion
    report leaves on the bar its own progress clamped to [0, 100], whatever
    the bar showed: the shown value does not decrease across it exactly when
    that clamped value is at least the value shown before.  The value a
    simulated tick computes is strictly above the simulator's own
    [lastProgress]. *)
Theorem C1_sample_overwrites_progress
    (evs : list Event) (task : Task) (p : Q) (n : nat) :
  let s := run evs loaded in
  inflight s = S n ->
  positive_progress task = Some p ->
  status task <> StCompleted ->
  let s' := step (PollSettle (Some task)) s in
  width (doc s') = clamp100 p /\
  (0 <= width (doc s') /\ width (doc s') <= 100)%Q /\
  ((width (doc s) <= width (doc s'))%Q <-> (width (doc s) <= clamp100 p)%Q) /\
  (forall env elapsed, (lastProgress env < tickProgress env elapsed)%Q).
Proof.
  intros s Hfl Hp Hst s'.
  destruct (positive_progress_some task p Hp) as [Hprog _].
  assert (Hw : width (doc s') = clamp100 p).
  { unfold s'. simpl. rewrite Hfl. unfold handleTask, applySample. rewrite Hp.
    destruct (status task); try congruence; simpl;
      rewrite ?stopSimulation_doc; simpl;
      rewrite updateProgress_width, Hprog; reflexivity. }
  rewrite Hw. split; [reflexivity|]. split; [apply clamp100_range|].
  split; [reflexivity|]. apply tick_above_last.
Qed.

Lemma C1_sample_overwrites_progress_witness :
  let s := run sim_until_4000 loaded in
  let s' := step (PollSettle (Some task_running_10)) s in
  width (doc s') = clamp100 10 /\
  (0 <= width (doc s') /\ width (doc s') <= 100)%Q /\
  ((width (doc s) <= width (doc s'))%Q <-> (width (doc s) <= clamp100 10)%Q) /\
  (forall env elapsed, (lastProgress env < tickProgress env elapsed)%Q).
Proof.
  apply (C1_sample_overwrites_progress sim_until_4000 task_running_10 10%Q 0%nat).
  - vm_compute. reflexivity.
  - reflexivity.
  - discriminate.
Defined.

(** C1, refuted as stated: after 4000ms of simulation the bar shows
    100/3 percent; a report with progress 10 then sets it to 10. *)
Lemma C1_counterexample :
  let s := run sim_until_4000 loaded in
  let s' := step (PollSettle (Some task_running_10)) s in
  (width (doc s) == 100 # 3)%Q /\ (width (doc s') == 10)%Q /\
  ~ (width (doc s) <= width (doc s'))%Q /\
  ~ (width (doc s') == Qmax (width (doc s)) 10)%Q.
Proof.
  vm_compute. repeat split; try discriminate.
  intros H. apply H. reflexivity.
Qed.

(** C2, refuted as stated: with no status fetch ever answered, after
    the six stage durations (12000ms) the bar shows 100 and the last stage is
    Completed; and the very first tick already shows 0.8 where the formula
    gives 0. *)
Lemma C2_counterexample :
  let s := run sim_until_12000 loaded in
  (width (doc s) == 100)%Q /\ ~ (width (doc s) <= 95)%Q /\
  stageAt 5 (doc s) = Some Completed /\ stageAt 5 (doc s) <> Some Active /\
  resultsShown (doc s) = 0%nat /\ length (timers s) = 2%nat /\
  (width (doc (run [StartPolling "t1" 0] loaded)) == 8 # 10)%Q /\
  (cappedProgress 0 0 == 0)%Q.
Proof.
  vm_compute. repeat split; try discriminate.
  intros H. apply H. reflexivity.
Qed.

(** Two more runs of the simulator alone.  The bar falls back at the first
    stage boundary (the 0.8 steps have run ahead of the formula when
    [lastProgress] is reset to the base of the next stage), and the last
    stage is completed and the bar set to 100 already at 10000ms, on the tick
    that enters the last stage, before the bar falls back again. *)
Example simulation_falls_back_at_boundary :
  let s40 := run (StartPolling "t1" 0 :: ticks 1 0 40) loaded in
  let s41 := run (StartPolling "t1" 0 :: ticks 1 0 41) loaded in
  (width (doc s40) == 164 # 5)%Q /\ (width (doc s41) == 205 # 12)%Q.
Proof. vm_compute. split; reflexivity. Qed.

Example simulation_completes_on_entering_last_stage :
  let s200 := run (StartPolling "t1" 0 :: ticks 1 0 200) loaded in
  let s201 := run (StartPolling "t1" 0 :: ticks 1 0 201) loaded in
  (width (doc s200) == 100)%Q /\ stageAt 5 (doc s200) = Some Completed /\
  (width (doc s201) == 335 # 4)%Q /\ activeCount (doc s201) = 0%nat.
Proof. vm_compute. repeat split; reflexivity. Qed.


(** *** The stage elements stay in the document *)

Lemma els_updateStepStatus name st d :
  dom (stepEls (updateStepStatus name st d)) = dom (stepEls d).
Proof.
  unfold updateStepStatus. destruct (stepEls d !! name) eqn:E; [|reflexivity].
  simpl. apply dom_insert_lookup_L. rewrite E. eauto.
Qed.

Lemma els_updateStepAt i st d :
  dom (stepEls (updateStepAt i st d)) = dom (stepEls d).
Proof.
  unfold updateStepAt. destruct (steps !! i); [apply els_updateStepStatus|reflexivity].
Qed.

Lemma els_fold_updateStepStatus st l d :
  dom (stepEls (fold_left (fun acc name => updateStepStatus name st acc) l d))
  = dom (stepEls d).
Proof.
  revert d. induction l as [|x l IH]; intros d; simpl; [reflexivity|].
  rewrite IH. apply els_updateStepStatus.
Qed.

Lemma els_completeBelow n d :
  dom (stepEls (completeBelow n d)) = dom (stepEls d).
Proof.
  unfold completeBelow. generalize (seq 0 n). intros l. revert d.
  induction l as [|x l IH]; intros d; simpl; [reflexivity|].
  rewrite IH. apply els_updateStepAt.
Qed.

Lemma els_updateProgress task d :
  dom (stepEls (updateProgress task d)) = dom (stepEls d).
Proof.
  unfold updateProgress.
  destruct (completed_steps task); rewrite ?els_fold_updateStepStatus;
    destruct (truthy_str _); rewrite ?els_updateStepStatus; reflexivity.
Qed.

Lemma els_runSimulation now env d :
  dom (stepEls (snd (runSimulation now (env, d)))) = dom (stepEls d).
Proof.
  unfold runSimulation.
  repeat (case_match; simpl in * ); simplify_eq; simpl;
    rewrite ?els_updateStepAt; reflexivity.
Qed.

Lemma els_stopSimulation s :
  dom (stepEls (doc (stopSimulation s))) = dom (stepEls (doc s)).
Proof. rewrite stopSimulation_doc. reflexivity. Qed.

Lemma els_applySample task s :
  dom (stepEls (doc (applySample task s))) = dom (stepEls (doc s)).
Proof.
  unfold applySample. destruct (positive_progress task); [|reflexivity].
  simpl. rewrite els_updateProgress.
  destruct (_ <? _)%nat; rewrite ?els_updateStepAt, els_completeBelow;
    apply els_stopSimulation.
Qed.

Lemma els_handleTask task s :
  dom (stepEls (doc (handleTask task s))) = dom (stepEls (doc s)).
Proof.
  unfold handleTask. destruct (status task); simpl;
    rewrite ?els_updateProgress; unfold completeAll;
    rewrite ?els_fold_updateStepStatus, ?stopSimulation_doc;
    apply els_applySample.
Qed.

Lemma els_step ev s :
  dom (stepEls (doc (step ev s))) = dom (stepEls (doc s)).
Proof.
  destruct ev as [taskId now|h now|r|]; simpl.
  - unfold startProgressPolling.
    match goal with
    | |- context [runSimulation now (?e, ?d)] =>
        pose proof (els_runSimulation now e d) as H;
        destruct (runSimulation now (e, d)) as [env1 d3]
    end.
    simpl in *. rewrite H.
    repeat (case_match; simpl); rewrite ?els_updateStepStatus; reflexivity.
  - destruct (find_timer h (timers s)) as [t|]; [|reflexivity].
    destruct (tkind t) as [r|tk]; [|reflexivity].
    unfold simTick. destruct (closures s !! r) as [env|]; [|reflexivity].
    pose proof (els_runSimulation now env (doc s)) as H.
    destruct (runSimulation now (env, doc s)) as [env' d']. exact H.
  - destruct (inflight s); [reflexivity|].
    destruct r; [rewrite els_handleTask|]; reflexivity.
  - apply dom_fmap_L.
Qed.

Lemma els_run evs s :
  dom (stepEls (doc (run evs s))) = dom (stepEls (doc s)).
Proof.
  revert s. induction evs as [|ev evs IH]; intros s; simpl; [reflexivity|].
  rewrite IH. apply els_step.
Qed.

Lemma steps_nodup : NoDup steps.
Proof. apply (bool_decide_unpack _). vm_compute. reflexivity. Qed.

Lemma stage_exists evs i :
  (i < 6)%nat -> is_Some (stageAt i (doc (run evs loaded))).
Proof.
  intros Hi. unfold stageAt.
  destruct (steps !! i) as [name|] eqn:E.
  - simpl. apply elem_of_dom. rewrite els_run. apply elem_of_dom.
    apply list_elem_of_lookup_2 in E. unfold steps in E.
    repeat (apply elem_of_cons in E as [->|E]; [vm_compute; eauto|]).
    apply elem_of_nil in E. contradiction.
  - apply lookup_ge_None in E. simpl in E. lia.
Qed.

(** *** Reading a stage after an update *)

Lemma stageAt_setBar i p t d : stageAt i (setBar p t d) = stageAt i d.
Proof. reflexivity. Qed.

Lemma stageAt_update_same i st d :
  stageAt i (updateStepAt i st d) = (fun _ => st) <$> stageAt i d.
Proof.
  unfold stageAt, updateStepAt. destruct (steps !! i) as [name|]; simpl; [|reflexivity].
  unfold updateStepStatus. destruct (stepEls d !! name) eqn:E; simpl.
  - rewrite lookup_insert_eq. reflexivity.
  - rewrite E. reflexivity.
Qed.

Lemma stageAt_update_other i j st d :
  i <> j -> stageAt i (updateStepAt j st d) = stageAt i d.
Proof.
  intros Hne. unfold stageAt, updateStepAt.
  destruct (steps !! j) as [b|] eqn:Ej; [|reflexivity].
  destruct (steps !! i) as [a|] eqn:Ei; simpl; [|reflexivity].
  unfold updateStepStatus. destruct (stepEls d !! b); simpl; [|reflexivity].
  apply lookup_insert_ne. intros ->.
  apply Hne. eapply NoDup_lookup; eauto using steps_nodup.
Qed.

(** *** One tick of the simulation *)

Lemma nsteps_6 : nsteps = 6%Q.
Proof. reflexivity. Qed.

Lemma scale_le (q : Q) : (1 <= q -> 100 / 6 <= q * (100 / 6))%Q.
Proof.
  intros H. assert (E : (100 / 6 == 50 # 3)%Q) by reflexivity. rewrite E. lra.
Qed.

Lemma scale_ge (q : Q) : (q <= 1 -> q * (100 / 6) <= 100 / 6)%Q.
Proof.
  intros H. assert (E : (100 / 6 == 50 # 3)%Q) by reflexivity. rewrite E. lra.
Qed.

(** The two-step computation of the script is the one-line formula. *)
Lemma capped_formula idx elapsed :
  (cappedProgress idx elapsed ==
   Qmin ((inject_Z (Z.of_nat idx)
          + Qmin (inject_Z elapsed / inject_Z stepDuration) 1) / nsteps * 100) 95)%Q.
Proof.
  unfold cappedProgress, baseProgress, stepProgress, stepDuration.
  rewrite nsteps_6.
  set (q := (inject_Z elapsed / inject_Z 2000)%Q).
  apply Q.min_compat; [|reflexivity].
  destruct (Qlt_le_dec 1 q) as [H|H].
  - apply Qlt_le_weak in H.
    rewrite (Q.min_r _ _ (scale_le q H)), (Q.min_r q 1%Q H). field.
  - rewrite (Q.min_l _ _ (scale_ge q H)), (Q.min_l q 1%Q H). field.
Qed.

Lemma runSimulation_before_boundary now env d :
  now - stepStartTime env < stepDuration ->
  let p := tickProgress env (now - stepStartTime env) in
  runSimulation now (env, d) =
    ({| currentStepIndex := currentStepIndex env;
        stepStartTime := stepStartTime env;
        lastProgress := p; isTransitioning := isTransitioning env |},
     setBar p (round p) d).
Proof.
  intros H p. unfold runSimulation.
  assert (E : (stepDuration <=? now - stepStartTime env) = false)
    by (apply Z.leb_gt, H).
  rewrite E. simpl. rewrite andb_false_r. reflexivity.
Qed.

Lemma runSimulation_last_stage now env d :
  currentStepIndex env = 5%nat ->
  stepDuration <= now - stepStartTime env ->
  let p := tickProgress env (now - stepStartTime env) in
  runSimulation now (env, d) =
    ({| currentStepIndex := 5;
        stepStartTime := stepStartTime env;
        lastProgress := p; isTransitioning := isTransitioning env |},
     setBar 100 100 (updateStepAt 5 Completed (setBar p (round p) d))).
Proof.
  intros Hidx H p. unfold runSimulation.
  assert (E : (stepDuration <=? now - stepStartTime env) = true)
    by (apply Z.leb_le, H).
  rewrite E, Hidx. reflexivity.
Qed.

Lemma runSimulation_logs now env d :
  let d' := snd (runSimulation now (env, d)) in
  errorsShown d' = errorsShown d /\ resultsShown d' = resultsShown d /\
  processingHidden d' = processingHidden d.
Proof.
  unfold runSimulation.
  repeat (case_match; simpl in * ); simplify_eq; simpl;
    repeat match goal with
    | |- context [updateStepAt ?i ?st ?x] =>
        destruct (updateStepAt_logs i st x) as (-> & -> & -> & _)
    end; simpl; auto.
Qed.

(** C2 (as amended). A simulated tick computes the capped value
    [min((index + min(elapsed/stepDuration, 1)) / N * 100, 95)]; before the
    stage boundary it writes that value when it is above [lastProgress] and
    [lastProgress + 0.8] otherwise, and touches no stage class; once the
    duration of the last stage has elapsed it marks the last stage Completed
    and sets the bar to 100.  In every case the run goes on: both handles and
    the timer table are unchanged, no result and no error is shown. *)
Theorem C2_simulated_tick
    (evs : list Event) (h r : nat) (env : SimEnv) (now : Z) :
  let s := run evs loaded in
  tkind <$> find_timer h (timers s) = Some (SimTimer r) ->
  closures s !! r = Some env ->
  let elapsed := now - stepStartTime env in
  let idx := currentStepIndex env in
  let s' := step (TimerFire h now) s in
  (cappedProgress idx elapsed ==
     Qmin ((inject_Z (Z.of_nat idx)
            + Qmin (inject_Z elapsed / inject_Z stepDuration) 1) / nsteps * 100) 95)%Q /\
  (elapsed < stepDuration ->
     width (doc s') =
       (if Qle_bool (cappedProgress idx elapsed) (lastProgress env)
        then lastProgress env + (8 # 10) else cappedProgress idx elapsed)%Q /\
     stepEls (doc s') = stepEls (doc s)) /\
  (idx = 5%nat -> stepDuration <= elapsed ->
     width (doc s') = 100%Q /\ stageAt 5 (doc s') = Some Completed) /\
  timers s' = timers s /\
  progressInterval s' = progressInterval s /\
  simulationInterval s' = simulationInterval s /\
  resultsShown (doc s') = resultsShown (doc s) /\
  errorsShown (doc s') = errorsShown (doc s) /\
  processingHidden (doc s') = processingHidden (doc s).
Proof.
  intros s Ht Hc elapsed idx s'.
  assert (Es' : s' = simTick r now s).
  { unfold s'. simpl. destruct (find_timer h (timers s)) as [t|]; [|discriminate].
    simpl in Ht. injection Ht as ->. reflexivity. }
  destruct (simTick_handles r now s) as (Hs & Hp & Htm & _).
  split; [apply capped_formula|].
  split; [|split].
  - intros Hlt. rewrite Es'. unfold simTick. rewrite Hc.
    rewrite (runSimulation_before_boundary now env (doc s) Hlt). simpl. auto.
  - intros Hidx Hge. rewrite Es'. unfold simTick. rewrite Hc.
    rewrite (runSimulation_last_stage now env (doc s) Hidx Hge). simpl.
    split; [reflexivity|].
    change (stageAt 5 (updateStepAt 5 Completed
              (setBar (tickProgress env (now - stepStartTime env))
                 (round (tickProgress env (now - stepStartTime env))) (doc s)))
            = Some Completed).
    rewrite stageAt_update_same, stageAt_setBar.
    destruct (stage_exists evs 5 ltac:(lia)) as [x Hx].
    fold s in Hx. rewrite Hx. reflexivity.
  - rewrite Es', Htm, Hp, Hs. repeat split; try reflexivity;
      unfold simTick; rewrite Hc;
      pose proof (runSimulation_logs now env (doc s)) as (E1 & E2 & E3);
      destruct (runSimulation now (env, doc s)) as [env' d']; simpl in *; auto.
Qed.

Lemma C2_simulated_tick_witness :
  let s := run [StartPolling "t1" 0] loaded in
  let s' := step (TimerFire 1 50) s in
  width (doc s') = ((8 # 10) + (8 # 10))%Q /\
  stepEls (doc s') = stepEls (doc s) /\
  timers s' = timers s /\ resultsShown (doc s') = resultsShown (doc s).
Proof.
  destruct (C2_simulated_tick [StartPolling "t1" 0] 1 0
              {| currentStepIndex := 0; stepStartTime := 0;
                 lastProgress := 0 + (8 # 10); isTransitioning := false |} 50)
    as (_ & Hbefore & _ & Ht & _ & _ & Hr & _).
  - reflexivity.
  - reflexivity.
  - assert (Hlt : 50 - 0 < stepDuration) by reflexivity.
    destruct (Hbefore Hlt) as [Hw He].
    repeat split; assumption.
Defined.

(** *** At most one Active stage while only the simulator writes *)

Lemma active_after_update i j st d :
  stageAt i (updateStepAt j st d) = Some Active ->
  (i = j /\ st = Active) \/ (i <> j /\ stageAt i d = Some Active).
Proof.
  destruct (decide (i = j)) as [->|Hne].
  - rewrite stageAt_update_same. destruct (stageAt j d); simpl; [|discriminate].
    intros [= ->]. auto.
  - rewrite (stageAt_update_other i j st d Hne). auto.
Qed.

Lemma filter_at_most_one {A} (P : A -> Prop) `{!forall x, Decision (P x)}
    (l : list A) (k : A) :
  NoDup l -> (forall x, P x -> x = k) -> (length (filter P l) <= 1)%nat.
Proof.
  intros Hnd HP. induction Hnd as [|x l Hx Hnd IH]; [simpl; lia|].
  rewrite filter_cons. destruct (decide (P x)) as [Hpx|]; [|exact IH].
  simpl. destruct (filter P l) as [|y l'] eqn:E; [simpl; lia|].
  exfalso. assert (Hy : y ∈ filter P l) by (rewrite E; left).
  apply list_elem_of_filter in Hy as [Hpy Hyl].
  apply Hx. rewrite (HP x Hpx), <- (HP y Hpy). exact Hyl.
Qed.

Lemma activeCount_le_1 d k :
  (forall i, stageAt i d = Some Active -> i = k) -> (activeCount d <= 1)%nat.
Proof.
  intros H. unfold activeCount.
  apply (filter_at_most_one _ _ k); [apply NoDup_seq|exact H].
Qed.




Lemma stageAt_showProcessing i d : stageAt i (showProcessing d) <> Some Active.
Proof.
  unfold stageAt. destruct (steps !! i) as [name|]; simpl; [|discriminate].
  rewrite lookup_fmap. destruct (stepEls d !! name); simpl; discriminate.
Qed.






(** *** Results are shown by the completion report only *)

Lemma runSimulation_results now env d :
  resultsShown (snd (runSimulation now (env, d))) = resultsShown d.
Proof. apply runSimulation_logs. Qed.

Lemma results_only_on_completed ev s :
  resultsShown (doc (step ev s)) = resultsShown (doc s) \/
  exists task, ev = PollSettle (Some task) /\ status task = StCompleted.
Proof.
  destruct ev as [taskId now|h now|[task|]|]; cbn [step].
  - left. unfold startProgressPolling.
    match goal with
    | |- context [runSimulation now (?e, ?d)] =>
        pose proof (runSimulation_results now e d) as H;
        destruct (runSimulation now (e, d)) as [env1 d3]
    end.
    cbn [doc snd] in *. rewrite H.
    destruct (Qle_bool 3 _); cbn [resultsShown setBar];
      destruct (stepEls _ !! "router"%string) as [[| |]|];
      try reflexivity;
      match goal with
      | |- context [updateStepStatus ?a ?b ?c] =>
          destruct (updateStepStatus_logs a b c) as (_ & -> & _)
      end; reflexivity.
  - left. destruct (find_timer h (timers s)) as [t|]; [|reflexivity].
    destruct (tkind t) as [r|tk]; [|reflexivity].
    unfold simTick. destruct (closures s !! r) as [env|]; [|reflexivity].
    pose proof (runSimulation_results now env (doc s)) as H.
    destruct (runSimulation now (env, doc s)) as [env' d']. exact H.
  - destruct (inflight s) as [|n]; [left; reflexivity|].
    destruct (status task) eqn:Est; [left|right; eauto|left];
      unfold handleTask; rewrite Est;
      cbn [doc with_doc stopPolling resultsShown hideProcessing showError];
      rewrite ?stopSimulation_doc;
      destruct (applySample_logs task (set_inflight n s)) as [_ ->];
      reflexivity.
  - left. destruct (inflight s); reflexivity.
  - left. reflexivity.
Qed.

(** *** The completion report *)

Lemma stageAt_updateStepStatus i name st d x :
  stageAt i (updateStepStatus name st d) = Some x ->
  x = st \/ stageAt i d = Some x.
Proof.
  unfold stageAt, updateStepStatus.
  destruct (steps !! i) as [a|]; simpl; [|discriminate].
  destruct (stepEls d !! name) eqn:E; simpl; [|auto].
  destruct (decide (name = a)) as [->|Hne].
  - rewrite lookup_insert_eq. intros [= <-]. auto.
  - rewrite lookup_insert_ne by exact Hne. auto.
Qed.





Lemma stageAt_hide_display i d :
  stageAt i (hideProcessing (displayResults d)) = stageAt i d.
Proof. reflexivity. Qed.

Lemma updateProgress_current_step task name i d :
  truthy_str (current_step task) = Some name ->
  steps !! i = Some name ->
  is_Some (stepEls d !! name) ->
  (forall l, completed_steps task = Some l -> name ∉ l) ->
  stageAt i (updateProgress task d) = Some Active.
Proof.
  intros Hcur Hi Hex Hnot. unfold updateProgress. rewrite Hcur.
  set (d1 := setBar _ _ d).
  assert (Hact : stageAt i (updateStepStatus name Active d1) = Some Active).
  { unfold stageAt, updateStepStatus. rewrite Hi. simpl.
    destruct Hex as [y ->]. simpl. apply lookup_insert_eq. }
  destruct (completed_steps task) as [l|] eqn:El; [|exact Hact].
  specialize (Hnot l eq_refl). revert Hact.
  generalize (updateStepStatus name Active d1). clear -Hnot Hi.
  induction l as [|x l IH]; intros d Hact; simpl; [exact Hact|].
  apply not_elem_of_cons in Hnot as [Hne Hnot].
  apply IH; [exact Hnot|].
  unfold stageAt, updateStepStatus in *. rewrite Hi in *. simpl in *.
  destruct (stepEls d !! x); simpl; [|exact Hact].
  rewrite lookup_insert_ne by congruence. exact Hact.
Qed.

(** A completion report that names a current step outside its own list of
    completed steps leaves that stage Active. *)
Lemma completed_report_current_step
    (evs : list Event) (task : Task) (n i : nat) (name : string) :
  let s := run evs loaded in
  inflight s = S n ->
  status task = StCompleted ->
  truthy_str (current_step task) = Some name ->
  steps !! i = Some name ->
  (forall l, completed_steps task = Some l -> name ∉ l) ->
  stageAt i (doc (step (PollSettle (Some task)) s)) = Some Active.
Proof.
  intros s Hfl Hst Hcur Hi Hnot.
  set (s0 := set_inflight n s).
  set (s2 := stopSimulation (applySample task s0)).
  assert (Es' : step (PollSettle (Some task)) s
                = with_doc (fun d => hideProcessing (displayResults d))
                    (stopPolling
                       (with_doc (fun d => updateProgress (with_progress 100 task)
                                             (completeAll d)) s2))).
  { simpl. rewrite Hfl. unfold handleTask. rewrite Hst. reflexivity. }
  rewrite Es'. clear Es'.
  assert (Hd2 : doc s2 = doc (applySample task s0)) by apply stopSimulation_doc.
  clearbody s2.
  cbn [doc with_doc stopPolling]. rewrite stageAt_hide_display.
  apply (updateProgress_current_step _ name); auto.
  apply elem_of_dom. unfold completeAll.
  rewrite els_fold_updateStepStatus, Hd2, els_applySample. apply elem_of_dom.
  assert (Hlt : (i < 6)%nat) by (apply lookup_lt_Some in Hi; exact Hi).
  pose proof (stage_exists evs i Hlt) as Hx. unfold stageAt in Hx.
  fold s in Hx. rewrite Hi in Hx. exact Hx.
Qed.

(** C5, violated by the script: a completion report that still
    names its current step.  The bar is forced to 100 and both intervals are
    cancelled, but the named stage ends Active, not Completed. *)
Theorem C5_completed_report_reactivates_current_step :
  let s := run first_poll loaded in
  let s' := step (PollSettle (Some task_completed_output)) s in
  (width (doc s') == 100)%Q /\ timers s' = [] /\
  progressInterval s' = None /\ simulationInterval s' = None /\
  resultsShown (doc s') = 1%nat /\
  (forall i, (i < 5)%nat -> stageAt i (doc s') = Some Completed) /\
  stageAt 5 (doc s') = Some Active.
Proof.
  repeat split; try (vm_compute; reflexivity).
  intros i Hi.
  destruct i as [|[|[|[|[|i]]]]]; try (vm_compute; reflexivity). lia.
Qed.

End ScriptFacts.

(** ** Properties of the ProcessingPipeline component *)
Module PipelineFacts.
Import Pipeline.

Lemma next_timer_elem ts t : next_timer ts = Some t -> t ∈ ts.
Proof.
  destruct ts as [|a ts]; simpl; [discriminate|]. intros [= <-].
  assert (H : forall l m, fold_left (fun m x => if earlier m x then m else x) l m
                          ∈ m :: l).
  { induction l as [|x l IH]; intros m; simpl; [left|].
    destruct (earlier m x).
    - specialize (IH m). apply elem_of_cons in IH as [->|IH]; [left|].
      right. right. exact IH.
    - right. apply IH. }
  apply H.
Qed.

(** *** Counting the timers of the step chain *)






(** *** A pending completion call *)

Lemma pending_app ts ts' :
  completion_pending (ts ++ ts') = completion_pending ts || completion_pending ts'.
Proof. apply existsb_app. Qed.

Lemma pending_filter (P : Timer -> Prop) `{!forall x, Decision (P x)} ts :
  completion_pending (filter P ts) = true -> completion_pending ts = true.
Proof.
  induction ts as [|a ts IH]; [simpl; auto|].
  rewrite filter_cons. destruct (decide (P a)); simpl.
  - intros Hx. apply orb_prop in Hx as [Hx|Hx]; [rewrite Hx; reflexivity|].
    rewrite (IH Hx). apply orb_true_r.
  - intros Hx. rewrite (IH Hx). apply orb_true_r.
Qed.

Lemma pending_clear h ts :
  completion_pending (clearTimer h ts) = true -> completion_pending ts = true.
Proof.
  destruct h as [n|]; simpl; [|auto].
  apply (pending_filter (fun t => tid t <> n)).
Qed.

Lemma pending_again k i cur d ts :
  completion_pending
    ((fun x => if decide (tid x = k)
               then {| tid := k; due := d; cb := ProgressTick i cur |} else x) <$> ts)
  = true ->
  completion_pending ts = true.
Proof.
  induction ts as [|a ts IH]; [simpl; auto|].
  rewrite fmap_cons. simpl. destruct (decide (tid a = k)); simpl.
  - intros H. rewrite (IH H). apply orb_true_r.
  - intros H. apply orb_prop in H as [H|H]; [rewrite H; reflexivity|].
    rewrite (IH H). apply orb_true_r.
Qed.

Lemma pending_elem t ts :
  t ∈ ts -> cb t = CallOnComplete -> completion_pending ts = true.
Proof.
  intros Hin Hc. induction ts as [|a ts IH]; [apply elem_of_nil in Hin; contradiction|].
  simpl. apply elem_of_cons in Hin as [<-|Hin].
  - rewrite Hc. reflexivity.
  - rewrite (IH Hin). apply orb_true_r.
Qed.

(** *** The step chain is linear *)







(** C9, violated by the component: the cleanup runs between the
    [stepTimer] callback of step 0 (1500ms) and the inner 200ms timeout.
    That timeout is still scheduled after the cleanup; it calls
    [startStep(1)], which schedules new timers, and the chain runs to the
    end and calls [onComplete]. *)
Theorem C9_cleanup_misses_inner_timeout :
  let s := run (replicate 31 Fire ++ [Cleanup]) (mount true true) in
  now s = 1500 /\
  timers s = [ {| tid := 3; due := 1700; cb := NextStep 0 |} ] /\
  length (timers (step Fire s)) = 2%nat /\
  stepStatuses (step Fire s) =
    [completed; active; pending; pending; pending; pending] /\
  let s' := run (replicate 162 Fire) s in
  onCompleteCalls s' = 1%nat /\ isCompleted s' = true /\
  stepStatuses s' = replicate 6 completed.
Proof. vm_compute. repeat split; reflexivity. Qed.

(** Before the first step boundary the cleanup does cancel everything. *)
Lemma run_fixed s : fire s = s -> cleanup s = s -> forall evs, run evs s = s.
Proof.
  intros Hf Hc evs. induction evs as [|ev evs IH]; [reflexivity|].
  change (run (ev :: evs) s) with (run evs (step ev s)).
  destruct ev; cbn [step]; rewrite ?Hf, ?Hc; exact IH.
Qed.

Lemma cleanup_before_boundary :
  let s := run (replicate 10 Fire ++ [Cleanup]) (mount true true) in
  timers s = [] /\ forall evs, run evs s = s.
Proof.
  split; [vm_compute; reflexivity|].
  apply run_fixed; vm_compute; reflexivity.
Qed.

End PipelineFacts.

(** ** Further properties of the page script *)
Module ScriptMoreFacts.
Import Script ScriptInv ScriptFacts.

(** *** The label follows the bar *)

Lemma label_updateStepStatus name st d :
  label_ok d -> label_ok (updateStepStatus name st d).
Proof.
  unfold label_ok.
  destruct (updateStepStatus_logs name st d) as (_ & _ & _ & -> & ->). auto.
Qed.

Lemma label_updateStepAt i st d : label_ok d -> label_ok (updateStepAt i st d).
Proof.
  unfold updateStepAt. destruct (steps !! i); [apply label_updateStepStatus|auto].
Qed.

Lemma label_fold st l d :
  label_ok d ->
  label_ok (fold_left (fun acc name => updateStepStatus name st acc) l d).
Proof.
  revert d. induction l as [|x l IH]; intros d H; simpl; [exact H|].
  apply IH, label_updateStepStatus, H.
Qed.

Lemma label_completeBelow n d : label_ok d -> label_ok (completeBelow n d).
Proof.
  unfold completeBelow. generalize (seq 0 n). intros l. revert d.
  induction l as [|x l IH]; intros d H; simpl; [exact H|].
  apply IH, label_updateStepAt, H.
Qed.

Lemma label_setBar p d : label_ok (setBar p (round p) d).
Proof. reflexivity. Qed.

Lemma label_updateProgress task d : label_ok (updateProgress task d).
Proof.
  unfold updateProgress.
  set (p := clamp100 _).
  assert (H1 : label_ok (setBar p (round p) d)) by apply label_setBar.
  destruct (completed_steps task); [apply label_fold|];
    destruct (truthy_str _); auto using label_updateStepStatus.
Qed.

Lemma label_runSimulation now env d :
  label_ok (snd (runSimulation now (env, d))).
Proof.
  unfold runSimulation.
  set (elapsed := now - stepStartTime env).
  set (p := tickProgress env elapsed).
  destruct (_ && _ && negb _) eqn:E1; cbv beta iota zeta;
    cbn [currentStepIndex];
    match goal with
    | |- context [if ?b then _ else _] => destruct b eqn:E2
    end;
    cbn [fst snd]; try reflexivity;
    repeat apply label_updateStepAt; apply label_setBar.
Qed.

Lemma label_step ev s : label_ok (doc s) -> label_ok (doc (step ev s)).
Proof.
  intros H. destruct ev as [taskId now|h now|[task|]|]; cbn [step].
  - unfold startProgressPolling.
    match goal with
    | |- context [runSimulation now (?e, ?d)] =>
        pose proof (label_runSimulation now e d) as Hr;
        destruct (runSimulation now (e, d)) as [env1 d3]
    end. exact Hr.
  - destruct (find_timer h (timers s)) as [t|]; [|exact H].
    destruct (tkind t) as [r|tk]; [|exact H].
    unfold simTick. destruct (closures s !! r) as [env|]; [|exact H].
    pose proof (label_runSimulation now env (doc s)) as Hr.
    destruct (runSimulation now (env, doc s)) as [env' d']. exact Hr.
  - destruct (inflight s) as [|n]; [exact H|].
    assert (Ha : label_ok (doc (applySample task (set_inflight n s)))).
    { unfold applySample. destruct (positive_progress task); [|exact H].
      apply label_updateProgress. }
    unfold handleTask. destruct (status task); cbn [doc with_doc stopPolling];
      rewrite ?stopSimulation_doc;
      first [ exact Ha
            | apply (label_updateProgress (with_progress 100 task))
            | unfold label_ok in *; cbn [text width hideProcessing showError];
              exact Ha ].
  - destruct (inflight s); exact H.
  - reflexivity.
Qed.

(** In every state reachable from the loaded page the percentage written next
    to the bar is [Math.round] of the bar width: the simulator, the reports
    and the display reset always write the two together. *)
Theorem label_follows_bar (evs : list Event) :
  text (doc (run evs loaded)) = round (width (doc (run evs loaded))).
Proof.
  assert (H : forall s, label_ok (doc s) -> label_ok (doc (run evs s))).
  { induction evs as [|ev evs IH]; intros s Hs; simpl; [exact Hs|].
    apply IH, label_step, Hs. }
  apply H. reflexivity.
Qed.

(** *** The simulator variables *)

Lemma baseProgress_nonneg idx : (0 <= baseProgress idx)%Q.
Proof.
  unfold baseProgress. rewrite nsteps_6.
  assert (H : (0 <= inject_Z (Z.of_nat idx))%Q).
  { change 0%Q with (inject_Z 0). rewrite <- Zle_Qle. lia. }
  revert H. generalize (inject_Z (Z.of_nat idx)). intros q H.
  assert (E : (q / 6 * 100 == q * (50 # 3))%Q) by field. rewrite E. lra.
Qed.

Lemma runSimulation_env_ok now env d :
  env_ok env -> env_ok (fst (runSimulation now (env, d))).
Proof.
  intros (Hidx & Htr & Hlast). unfold runSimulation.
  set (elapsed := now - stepStartTime env).
  pose proof (tick_above_last env elapsed) as Hp.
  destruct (_ && _ && negb _) eqn:E1; cbv beta iota zeta;
    cbn [currentStepIndex];
    match goal with
    | |- context [if ?b then _ else _] => destruct b eqn:E2
    end;
    cbn [fst]; unfold env_ok; cbn [currentStepIndex isTransitioning lastProgress].
  1,2: apply andb_prop in E1 as [E1 _]; apply andb_prop in E1 as [_ E1];
       apply Nat.ltb_lt in E1; simpl in E1;
       (split; [lia|split; [reflexivity|apply baseProgress_nonneg]]).
  1,2: split; [exact Hidx|split; [exact Htr|]];
       apply Qlt_le_weak; eapply Qle_lt_trans; eauto.
Qed.

Lemma runSimulation_index now env d :
  let env' := fst (runSimulation now (env, d)) in
  (currentStepIndex env <= currentStepIndex env' <= S (currentStepIndex env))%nat.
Proof.
  unfold runSimulation.
  destruct (_ && _ && negb _) eqn:E1; cbv beta iota zeta;
    cbn [currentStepIndex];
    match goal with
    | |- context [if ?b then _ else _] => destruct b eqn:E2
    end;
    cbn [fst currentStepIndex]; lia.
Qed.

Lemma runSimulation_width now env d :
  env_ok env -> (0 <= width (snd (runSimulation now (env, d))))%Q.
Proof.
  intros (_ & _ & Hlast). unfold runSimulation.
  set (elapsed := now - stepStartTime env).
  pose proof (tick_above_last env elapsed) as Hp.
  assert (H0 : (0 <= tickProgress env elapsed)%Q)
    by (apply Qlt_le_weak; eapply Qle_lt_trans; eauto).
  destruct (_ && _ && negb _) eqn:E1; cbv beta iota zeta;
    cbn [currentStepIndex];
    match goal with
    | |- context [if ?b then _ else _] => destruct b eqn:E2
    end;
    cbn [snd]; try discriminate;
    repeat match goal with
    | |- context [updateStepAt ?i ?st ?x] =>
        destruct (updateStepAt_logs i st x) as (_ & _ & _ & -> & _)
    end; exact H0.
Qed.

Lemma applySample_width task s :
  (0 <= width (doc s))%Q -> (0 <= width (doc (applySample task s)))%Q.
Proof.
  intros H. unfold applySample. destruct (positive_progress task); [|exact H].
  cbn [doc with_doc]. rewrite updateProgress_width. apply clamp100_range.
Qed.

Lemma applySample_closures task s : closures (applySample task s) = closures s.
Proof.
  unfold applySample. destruct (positive_progress task); [|reflexivity].
  cbn [closures with_doc]. unfold stopSimulation.
  destruct (truthy_handle _); reflexivity.
Qed.

Lemma handleTask_closures task s : closures (handleTask task s) = closures s.
Proof.
  unfold handleTask. destruct (status task);
    cbn [closures with_doc stopPolling];
    unfold stopSimulation; try destruct (truthy_handle _);
    cbn [closures]; apply applySample_closures.
Qed.

Lemma sim_inv_step ev s :
  closures_ok s /\ (0 <= width (doc s))%Q ->
  closures_ok (step ev s) /\ (0 <= width (doc (step ev s)))%Q.
Proof.
  intros [Hc Hw]. destruct ev as [taskId now|h now|[task|]|]; cbn [step].
  - unfold startProgressPolling.
    set (env0 := {| currentStepIndex := 0; stepStartTime := now;
                    lastProgress := 0; isTransitioning := false |}).
    assert (H0 : env_ok env0).
    { unfold env_ok; simpl. split; [lia|split; [reflexivity|discriminate]]. }
    match goal with
    | |- context [runSimulation now (env0, ?d)] =>
        pose proof (runSimulation_env_ok now env0 d H0) as He;
        pose proof (runSimulation_width now env0 d H0) as Hd;
        destruct (runSimulation now (env0, d)) as [env1 d3]
    end.
    cbn [fst snd] in *. split; [|exact Hd].
    intros r env Hr. cbn [closures] in Hr.
    apply lookup_app_Some in Hr as [Hr|[_ Hr]]; [eauto|].
    apply list_lookup_singleton_Some in Hr as [_ <-]. exact He.
  - destruct (find_timer h (timers s)) as [t|]; [|auto].
    destruct (tkind t) as [r|tk]; [|auto].
    unfold simTick. destruct (closures s !! r) as [env|] eqn:Er; [|auto].
    pose proof (runSimulation_env_ok now env (doc s) (Hc _ _ Er)) as He.
    pose proof (runSimulation_width now env (doc s) (Hc _ _ Er)) as Hd.
    destruct (runSimulation now (env, doc s)) as [env' d'].
    cbn [fst snd] in *. split; [|exact Hd].
    intros r' e' Hr'. cbn [closures] in Hr'.
    destruct (decide (r = r')) as [<-|Hne].
    + rewrite list_lookup_insert_eq in Hr' by (eapply lookup_lt_Some; eauto).
      injection Hr' as <-. exact He.
    + rewrite list_lookup_insert_ne in Hr' by exact Hne. eauto.
  - destruct (inflight s) as [|n]; [auto|]. split.
    + intros r env. rewrite handleTask_closures. apply Hc.
    + pose proof (applySample_width task (set_inflight n s) Hw) as Ha.
      unfold handleTask. destruct (status task);
        cbn [doc with_doc stopPolling width hideProcessing showError displayResults];
        rewrite ?stopSimulation_doc; try exact Ha.
      rewrite updateProgress_width. apply clamp100_range.
  - destruct (inflight s); auto.
  - split; [exact Hc|]. discriminate.
Qed.

Lemma sim_inv_run evs :
  closures_ok (run evs loaded) /\ (0 <= width (doc (run evs loaded)))%Q.
Proof.
  assert (H : forall s, closures_ok s /\ (0 <= width (doc s))%Q ->
                        closures_ok (run evs s) /\ (0 <= width (doc (run evs s)))%Q).
  { induction evs as [|ev evs IH]; intros s Hs; simpl; [exact Hs|].
    apply IH, sim_inv_step, Hs. }
  apply H. split; [|discriminate].
  intros r env Hr. simpl in Hr. rewrite lookup_nil in Hr. discriminate.
Qed.

(** Whatever the times at which the callbacks run, every simulator closure
    keeps its stage index within the catalog (at most 5), the transition
    guard [isTransitioning] is false whenever a callback starts, and
    [lastProgress] is never negative. *)
Theorem simulator_variables_in_range (evs : list Event) (r : nat) (env : SimEnv) :
  closures (run evs loaded) !! r = Some env ->
  (currentStepIndex env <= 5)%nat /\ isTransitioning env = false /\
  (0 <= lastProgress env)%Q.
Proof. intros H. exact (proj1 (sim_inv_run evs) r env H). Qed.

Lemma simulator_variables_in_range_witness :
  (currentStepIndex
     {| currentStepIndex := 2; stepStartTime := 4000;
        lastProgress := baseProgress 2; isTransitioning := false |} <= 5)%nat /\
  isTransitioning
     {| currentStepIndex := 2; stepStartTime := 4000;
        lastProgress := baseProgress 2; isTransitioning := false |} = false /\
  (0 <= lastProgress
     {| currentStepIndex := 2; stepStartTime := 4000;
        lastProgress := baseProgress 2; isTransitioning := false |})%Q.
Proof.
  apply (simulator_variables_in_range sim_until_4000 0).
  vm_compute. reflexivity.
Defined.

(** The bar width is never negative, even when the clock read by a tick is
    earlier than the start of the stage. *)
Theorem bar_never_negative (evs : list Event) :
  (0 <= width (doc (run evs loaded)))%Q.
Proof. exact (proj2 (sim_inv_run evs)). Qed.

(** One tick moves the simulator by at most one stage, however long ago the
    previous tick ran, and never moves it back. *)
Theorem tick_advances_at_most_one_stage (now : Z) (env : SimEnv) (d : Document) :
  let env' := fst (runSimulation now (env, d)) in
  (currentStepIndex env <= currentStepIndex env' <= S (currentStepIndex env))%nat.
Proof. apply runSimulation_index. Qed.

(** *** What a new run starts from *)



(** *** Who shows results and errors *)

Lemma errors_only_on_failed ev s :
  errorsShown (doc (step ev s)) = errorsShown (doc s) \/ is_report StFailed ev.
Proof.
  destruct ev as [taskId now|h now|[task|]|]; cbn [step].
  - left. unfold startProgressPolling.
    match goal with
    | |- context [runSimulation now (?e, ?d)] =>
        pose proof (runSimulation_logs now e d) as (H & _);
        destruct (runSimulation now (e, d)) as [env1 d3]
    end.
    cbn [doc snd] in *. rewrite H.
    destruct (Qle_bool 3 _); cbn [errorsShown setBar];
      destruct (stepEls _ !! "router"%string) as [[| |]|];
      try reflexivity;
      match goal with
      | |- context [updateStepStatus ?a ?b ?c] =>
          destruct (updateStepStatus_logs a b c) as (-> & _)
      end; reflexivity.
  - left. destruct (find_timer h (timers s)) as [t|]; [|reflexivity].
    destruct (tkind t) as [r|tk]; [|reflexivity].
    unfold simTick. destruct (closures s !! r) as [env|]; [|reflexivity].
    pose proof (runSimulation_logs now env (doc s)) as (H & _).
    destruct (runSimulation now (env, doc s)) as [env' d']. exact H.
  - destruct (inflight s) as [|n]; [left; reflexivity|].
    destruct (status task) eqn:Est; [left|left|right; exists task; auto];
      unfold handleTask; rewrite Est;
      cbn [doc with_doc stopPolling errorsShown hideProcessing displayResults];
      rewrite ?stopSimulation_doc.
    + destruct (applySample_logs task (set_inflight n s)) as [-> _]. reflexivity.
    + destruct (updateProgress_logs (with_progress 100 task)
                  (completeAll (doc (applySample task (set_inflight n s)))))
        as (-> & _).
      unfold completeAll.
      destruct (fold_updateStepStatus_logs Completed steps
                  (doc (applySample task (set_inflight n s)))) as (-> & _).
      destruct (applySample_logs task (set_inflight n s)) as [-> _]. reflexivity.
  - left. destruct (inflight s); reflexivity.
  - left. reflexivity.
Qed.

(** Only a report with status [completed] shows results and only a report
    with status [failed] shows an error: neither the simulator, however far
    it runs, nor a running report, a failed fetch, a new run or the display
    reset does. *)
Theorem outcome_only_from_terminal_reports (ev : Event) (s : State) :
  (resultsShown (doc (step ev s)) = resultsShown (doc s) \/
   is_report StCompleted ev) /\
  (errorsShown (doc (step ev s)) = errorsShown (doc s) \/
   is_report StFailed ev).
Proof.
  split; [apply results_only_on_completed|apply errors_only_on_failed].
Qed.

(** *** The completion report, for every reachable state *)





End ScriptMoreFacts.

(** ** Properties of simulateQuickProgress *)
Module QuickFacts.
Import Script ScriptFacts Quick.

Lemma stageAt_completeAll i d :
  stageAt i (completeAll d) = (fun _ => Completed) <$> stageAt i d.
Proof.
  unfold completeAll.
  assert (Hkeep : forall l d',
            stageAt i d' = (fun _ => Completed) <$> stageAt i d' ->
            stageAt i (fold_left (fun acc name => updateStepStatus name Completed acc)
                                 l d') = stageAt i d').
  { induction l as [|x l IH]; intros d' H; simpl; [reflexivity|].
    assert (E : stageAt i (updateStepStatus x Completed d') = stageAt i d').
    { unfold stageAt, updateStepStatus in *.
      destruct (steps !! i) as [a|]; simpl in *; [|reflexivity].
      destruct (stepEls d' !! x) eqn:Ex; simpl; [|reflexivity].
      destruct (decide (x = a)) as [->|Hne].
      - rewrite lookup_insert_eq, H, Ex. reflexivity.
      - rewrite lookup_insert_ne by exact Hne. reflexivity. }
    rewrite IH; rewrite E; [reflexivity|exact H]. }
  assert (Hset : forall l d' name,
            steps !! i = Some name -> name ∈ l ->
            stageAt i (fold_left (fun acc name => updateStepStatus name Completed acc)
                                 l d') = (fun _ => Completed) <$> stageAt i d').
  { induction l as [|x l IH]; intros d' name Hn Hin.
    - apply elem_of_nil in Hin. contradiction.
    - simpl. destruct (decide (x = name)) as [->|Hne].
      + assert (E : stageAt i (updateStepStatus name Completed d')
                    = (fun _ => Completed) <$> stageAt i d').
        { unfold stageAt, updateStepStatus. rewrite Hn. simpl.
          destruct (stepEls d' !! name) eqn:Ex; simpl.
          - rewrite lookup_insert_eq. reflexivity.
          - rewrite Ex. reflexivity. }
        rewrite Hkeep; rewrite E; [reflexivity|].
        destruct (stageAt i d'); reflexivity.
      + apply elem_of_cons in Hin as [->|Hin]; [congruence|].
        rewrite (IH _ name Hn Hin).
        unfold stageAt, updateStepStatus. rewrite Hn. simpl.
        destruct (stepEls d' !! x); simpl; [|reflexivity].
        rewrite lookup_insert_ne by exact Hne. reflexivity. }
  destruct (steps !! i) as [name|] eqn:En.
  - apply (Hset steps d name eq_refl). apply list_elem_of_lookup_2 in En. exact En.
  - assert (E : forall d', stageAt i d' = None)
      by (intros d'; unfold stageAt; rewrite En; reflexivity).
    rewrite !E. reflexivity.
Qed.

(** The counters do not depend on the document. *)
Lemma quickTick_env hasBar q d d' :
  fst (quickTick hasBar (q, d)) = fst (quickTick hasBar (q, d')).
Proof.
  unfold quickTick. destruct (negb (scheduled q)); [reflexivity|].
  destruct (currentStep q <? length steps)%nat; cbv beta iota zeta;
    match goal with
    | |- context [if ?b then _ else _] => destruct b
    end; reflexivity.
Qed.

Lemma quickTicks_env hasBar n q d d' :
  fst (quickTicks hasBar n (q, d)) = fst (quickTicks hasBar n (q, d')).
Proof.
  revert q d d'. induction n as [|n IH]; intros q d d'; cbn [quickTicks];
    [reflexivity|].
  pose proof (quickTick_env hasBar q d d') as E.
  destruct (quickTick hasBar (q, d)) as [q1 d1].
  destruct (quickTick hasBar (q, d')) as [q2 d2]. simpl in E. subst q2.
  apply IH.
Qed.

Lemma quickTick_stopped hasBar q d :
  scheduled q = false -> quickTick hasBar (q, d) = (q, d).
Proof. intros H. unfold quickTick. rewrite H. reflexivity. Qed.

Lemma quickTicks_stopped hasBar n q d :
  scheduled q = false -> quickTicks hasBar n (q, d) = (q, d).
Proof.
  intros H. induction n as [|n IH]; cbn [quickTicks]; [reflexivity|].
  rewrite quickTick_stopped by exact H. exact IH.
Qed.

Lemma quickTicks_add hasBar n m qd :
  quickTicks hasBar (n + m) qd = quickTicks hasBar m (quickTicks hasBar n qd).
Proof.
  revert qd. induction n as [|n IH]; intros qd; cbn [quickTicks Nat.add];
    [reflexivity|]. apply IH.
Qed.

(** Whether a stage element exists is not changed by any update. *)
Lemma shape_updateStepAt {C} (c : C) i j st d :
  (fun _ => c) <$> stageAt i (updateStepAt j st d) = (fun _ => c) <$> stageAt i d.
Proof.
  destruct (decide (i = j)) as [->|Hne].
  - rewrite stageAt_update_same. destruct (stageAt j d); reflexivity.
  - rewrite (stageAt_update_other i j st d Hne). reflexivity.
Qed.

Lemma shape_completeAll {C} (c : C) i d :
  (fun _ => c) <$> stageAt i (completeAll d) = (fun _ => c) <$> stageAt i d.
Proof. rewrite stageAt_completeAll. destruct (stageAt i d); reflexivity. Qed.

Lemma shape_quickTick {C} (c : C) hasBar i q d :
  (fun _ => c) <$> stageAt i (snd (quickTick hasBar (q, d)))
  = (fun _ => c) <$> stageAt i d.
Proof.
  unfold quickTick. destruct (negb (scheduled q)); [reflexivity|].
  destruct (currentStep q <? length steps)%nat; cbv beta iota zeta;
    match goal with
    | |- context [if Qle_bool 100 ?p && ?b then _ else _] =>
        destruct (Qle_bool 100 p && b)
    end; cbn [snd];
    rewrite ?shape_completeAll, ?shape_updateStepAt;
    destruct (0 <? currentStep q)%nat;
    rewrite ?shape_updateStepAt; destruct hasBar; reflexivity.
Qed.

Lemma shape_quickTicks {C} (c : C) hasBar i n q d :
  (fun _ => c) <$> stageAt i (snd (quickTicks hasBar n (q, d)))
  = (fun _ => c) <$> stageAt i d.
Proof.
  revert q d. induction n as [|n IH]; intros q d; cbn [quickTicks];
    [reflexivity|].
  pose proof (shape_quickTick c hasBar i q d) as E.
  destruct (quickTick hasBar (q, d)) as [q1 d1]. cbn [snd] in E.
  rewrite IH. exact E.
Qed.

(** The tick on which the interval is cleared. *)
Lemma quickTick_last q d :
  currentStep q = 6%nat -> scheduled q = true ->
  Qle_bool (progress q + 15) 100 = false ->
  quickTick true (q, d) =
    ({| currentStep := 6; progress := 100; scheduled := false;
        callbacks := S (callbacks q) |},
     completeAll (setBar 100 (round 100) d)).
Proof.
  intros Hcs Hs Hp. unfold quickTick. rewrite Hs, Hcs, Hp. reflexivity.
Qed.

(** With the bar in the document the quick simulation ends on its seventh
    tick, whatever the document showed: until then the interval is scheduled
    and [callback] is not; on the seventh tick the bar is 100, every stage
    element is Completed, the interval is cleared and [callback] has been
    scheduled exactly once; any later tick changes nothing. *)
Theorem quick_progress_finishes (d : Document) (n : nat) :
  let r := quickTicks true n (start, d) in
  ((n < 7)%nat -> scheduled (fst r) = true /\ callbacks (fst r) = 0%nat) /\
  ((7 <= n)%nat ->
     scheduled (fst r) = false /\ callbacks (fst r) = 1%nat /\
     (progress (fst r) == 100)%Q /\ (width (snd r) == 100)%Q /\
     (forall i, stageAt i (snd r) = (fun _ => Completed) <$> stageAt i d) /\
     r = quickTicks true 7 (start, d)).
Proof.
  intros r. split.
  - intros Hn. unfold r. rewrite (quickTicks_env true n start d page).
    destruct n as [|[|[|[|[|[|[|n]]]]]]]; try lia; vm_compute; auto.
  - intros Hn.
    assert (E6 : fst (quickTicks true 6 (start, d))
                 = {| currentStep := 6; progress := 15 + 15 + 15 + 15 + 15 + 15;
                      scheduled := true; callbacks := 0 |}).
    { rewrite (quickTicks_env true 6 start d page). vm_compute. reflexivity. }
    destruct (quickTicks true 6 (start, d)) as [q6 d6] eqn:Eq6.
    cbn [fst] in E6. subst q6.
    assert (E7 : quickTicks true 7 (start, d)
                 = ({| currentStep := 6; progress := 100; scheduled := false;
                       callbacks := 1 |},
                    completeAll (setBar 100 (round 100) d6))).
    { change 7%nat with (6 + 1)%nat. rewrite quickTicks_add, Eq6.
      cbn [quickTicks]. apply quickTick_last; reflexivity. }
    assert (Er : r = quickTicks true 7 (start, d)).
    { unfold r. replace n with (7 + (n - 7))%nat by lia.
      rewrite quickTicks_add, E7. apply quickTicks_stopped. reflexivity. }
    rewrite Er, E7. cbn [fst snd scheduled callbacks progress].
    repeat split; try reflexivity.
    + unfold completeAll.
      destruct (fold_updateStepStatus_logs Completed steps
                  (setBar 100 (round 100) d6)) as (_ & _ & _ & -> & _).
      reflexivity.
    + intros i. rewrite stageAt_completeAll, stageAt_setBar.
      pose proof (shape_quickTicks Completed true i 6 start d) as E.
      rewrite Eq6 in E. exact E.
Qed.

(** Without the progress elements the counter never moves, so the interval
    is never cleared and [callback] is never scheduled, however many ticks
    run; the stage counter stops at the end of the catalog. *)
Theorem quick_progress_stuck_without_bar (d : Document) (n : nat) :
  let r := quickTicks false n (start, d) in
  scheduled (fst r) = true /\ callbacks (fst r) = 0%nat /\
  (progress (fst r) == 0)%Q /\ (currentStep (fst r) <= 6)%nat /\
  ((6 <= n)%nat -> currentStep (fst r) = 6%nat).
Proof.
  intros r. unfold r. clear r.
  assert (H : forall n q d,
            scheduled q = true -> callbacks q = 0%nat -> progress q = 0%Q ->
            (currentStep q <= 6)%nat ->
            let r := quickTicks false n (q, d) in
            scheduled (fst r) = true /\ callbacks (fst r) = 0%nat /\
            progress (fst r) = 0%Q /\ (currentStep (fst r) <= 6)%nat /\
            currentStep (fst r) = Nat.min 6 (currentStep q + n)).
  { clear. induction n as [|n IH]; intros q d Hs Hc Hp Hcs; cbn [quickTicks].
    - cbn [fst]. repeat split; auto. lia.
    - assert (E : quickTick false (q, d)
                  = ({| currentStep := if (currentStep q <? 6)%nat
                                       then S (currentStep q) else currentStep q;
                        progress := 0; scheduled := true; callbacks := 0 |},
                     snd (quickTick false (q, d)))).
      { unfold quickTick. rewrite Hs, Hp, Hc. cbn [negb].
        destruct (currentStep q <? length steps)%nat eqn:El;
          change (length steps) with 6%nat in *; rewrite ?El; reflexivity. }
      rewrite E. clear E.
      set (cs' := if (currentStep q <? 6)%nat
                  then S (currentStep q) else currentStep q).
      assert (Hcs' : (cs' <= 6)%nat /\
                     Nat.min 6 (cs' + n) = Nat.min 6 (currentStep q + S n)).
      { unfold cs'. destruct (currentStep q <? 6)%nat eqn:El;
          [apply Nat.ltb_lt in El|apply Nat.ltb_ge in El]; lia. }
      destruct Hcs' as [Hle Hmin].
      match goal with
      | |- context [quickTicks false n (?q', ?d')] =>
          destruct (IH q' d' eq_refl eq_refl eq_refl Hle)
            as (H1 & H2 & H3 & H4 & H5)
      end.
      repeat split; auto. rewrite H5. exact Hmin. }
  destruct (H n start d eq_refl eq_refl eq_refl) as (H1 & H2 & H3 & H4 & H5).
  { simpl. lia. }
  repeat split; auto.
  - rewrite H3. reflexivity.
  - intros Hn. rewrite H5. change (currentStep start) with 0%nat. lia.
Qed.

Lemma quickTick_owns_active hasBar q d :
  quick_owns_active (q, d) -> quick_owns_active (quickTick hasBar (q, d)).
Proof.
  unfold quick_owns_active. cbn [fst snd]. intros H i.
  unfold quickTick. destruct (negb (scheduled q)); [apply H|].
  set (p := if hasBar then _ else progress q).
  set (d1 := if hasBar then setBar p (round p) d else d).
  assert (H1 : forall j, stageAt j d1 = Some Active -> S j = currentStep q).
  { intros j. unfold d1. destruct hasBar; rewrite ?stageAt_setBar; apply H. }
  destruct (currentStep q <? length steps)%nat eqn:El; cbv beta iota zeta;
    match goal with
    | |- context [if ?b then _ else _] => destruct b
    end; cbn [fst snd currentStep]; rewrite ?stageAt_completeAll; intros Hi.
  - destruct (stageAt i _); discriminate.
  - apply active_after_update in Hi as [[-> _]|[Hne Hi]]; [reflexivity|].
    destruct (0 <? currentStep q)%nat eqn:E0.
    + apply active_after_update in Hi as [[_ ?]|[Hne' Hi]]; [discriminate|].
      apply H1 in Hi. apply Nat.ltb_lt in E0. lia.
    + apply H1 in Hi. apply Nat.ltb_ge in E0. lia.
  - destruct (stageAt i _); discriminate.
  - apply H1, Hi.
Qed.

(** Started on a display with no Active stage (as [showProcessing] leaves
    it), the quick simulation shows at most one Active stage after every
    tick, with or without the bar. *)
Theorem quick_progress_single_active (hasBar : bool) (d : Document) (n : nat) :
  (forall i, stageAt i d <> Some Active) ->
  (activeCount (snd (quickTicks hasBar n (start, d))) <= 1)%nat.
Proof.
  intros Hno.
  assert (H : forall n qd, quick_owns_active qd ->
                           quick_owns_active (quickTicks hasBar n qd)).
  { clear. induction n as [|n IH]; intros [q d] Hq; cbn [quickTicks];
      [exact Hq|].
    apply IH. apply quickTick_owns_active, Hq. }
  assert (H0 : quick_owns_active (start, d)).
  { intros i Hi. exfalso. exact (Hno i Hi). }
  specialize (H n _ H0).
  destruct (quickTicks hasBar n (start, d)) as [q' d'].
  unfold quick_owns_active in H. cbn [fst snd] in *.
  apply (activeCount_le_1 d' (pred (currentStep q'))).
  intros i Hi. apply H in Hi. lia.
Qed.

Lemma quick_progress_single_active_witness :
  (activeCount (snd (quickTicks true 3 (start, showProcessing page))) <= 1)%nat.
Proof.
  apply (quick_progress_single_active true (showProcessing page) 3).
  intros i. apply stageAt_showProcessing.
Defined.

End QuickFacts.

(** ** Further properties of the ProcessingPipeline component *)
Module PipelineMoreFacts.
Import Pipeline PipelineFacts PipelineView.

(** However the state came about, [getStepStatus] draws at most one step as
    active: only the current index can read the stored status. *)
Theorem view_single_active (s : State) (n : nat) :
  (length (filter (fun i => getStepStatus i s = Some active) (seq 0 n)) <= 1)%nat.
Proof.
  apply (ScriptFacts.filter_at_most_one _ _ (currentStep s)); [apply NoDup_seq|].
  intros i. unfold getStepStatus.
  destruct (i <? currentStep s)%nat; [discriminate|].
  destruct (i =? currentStep s)%nat eqn:E; [|discriminate].
  intros _. apply Nat.eqb_eq, E.
Qed.

(** *** The stored statuses stay ordered *)



Lemma cleanup_subset s t : t ∈ timers (cleanup s) -> t ∈ timers s.
Proof.
  unfold cleanup. cbn [timers set_timers].
  destruct (truthy_handle (stepTimer s)), (truthy_handle (progressTimer s));
    unfold clearTimer;
    destruct (stepTimer s), (progressTimer s); intros Hin;
    repeat (apply list_elem_of_filter in Hin as [_ Hin]); exact Hin.
Qed.



Lemma clearTimer_subset h (ts : list Timer) t : t ∈ clearTimer h ts -> t ∈ ts.
Proof.
  destruct h; simpl; [|auto]. intros Hin.
  apply list_elem_of_filter in Hin as [_ Hin]. exact Hin.
Qed.






(** *** The progress value along an uninterrupted run *)

Lemma run_fire_add a b s :
  run (replicate (a + b) Fire) s = run (replicate b Fire) (run (replicate a Fire) s).
Proof. unfold run. rewrite replicate_add, fold_left_app. reflexivity. Qed.

Lemma run_fire_fixed s n : fire s = s -> run (replicate n Fire) s = s.
Proof.
  intros H. induction n as [|n IH]; [reflexivity|].
  change (run (replicate (S n) Fire) s) with (run (replicate n Fire) (fire s)).
  rewrite H. exact IH.
Qed.

Lemma run_fire_end b n :
  (193 <= n)%nat ->
  run (replicate n Fire) (mount true b) = run (replicate 193 Fire) (mount true b).
Proof.
  intros Hn. replace n with (193 + (n - 193))%nat by lia.
  rewrite run_fire_add. apply run_fire_fixed.
  destruct b; vm_compute; reflexivity.
Qed.

Lemma trace_ok_run k s n :
  trace_ok k s = true -> (n < k)%nat ->
  progress_ok (run (replicate n Fire) s) = true.
Proof.
  revert s n. induction k as [|k IH]; intros s n H Hn; [lia|].
  cbn [trace_ok] in H. apply andb_prop in H as [H0 H].
  destruct n as [|n]; [exact H0|].
  change (run (replicate (S n) Fire) s) with (run (replicate n Fire) (fire s)).
  apply IH; [exact H|lia].
Qed.

(** In a run the cleanup does not interrupt, the progress value starts at 0,
    stays within [0, 100], never falls from one callback to the next, and
    from the 193rd callback on it is 100 with the component completed and no
    timer left. *)
Theorem progress_never_falls (n : nat) (withOnComplete : bool) :
  let s := run (replicate n Fire) (mount true withOnComplete) in
  (0 <= progress s)%Q /\ (progress s <= 100)%Q /\
  (progress s <= progress (fire s))%Q /\
  ((193 <= n)%nat ->
     (progress s == 100)%Q /\ isCompleted s = true /\ timers s = []).
Proof.
  intros s.
  assert (Hall : trace_ok 194 (mount true withOnComplete) = true)
    by (destruct withOnComplete; vm_compute; reflexivity).
  assert (Hok : progress_ok s = true).
  { destruct (le_lt_dec 193 n) as [Hge|Hlt].
    - unfold s. rewrite (run_fire_end _ n Hge).
      apply (trace_ok_run 194 _ 193 Hall). lia.
    - apply (trace_ok_run 194 _ n Hall). lia. }
  unfold progress_ok in Hok.
  apply andb_prop in Hok as [Hok H3]. apply andb_prop in Hok as [H1 H2].
  apply Qle_bool_iff in H1, H2, H3.
  repeat split; try assumption;
    unfold s; rewrite (run_fire_end _ n H);
    destruct withOnComplete; vm_compute; reflexivity.
Qed.

(** *** Mounting without [autoStart] *)

(** With [autoStart] false the effect returns at once: nothing is scheduled,
    and no sequence of timer slots and cleanups ever changes the component. *)
Theorem inert_without_autostart (evs : list Event) (withOnComplete : bool) :
  run evs (mount false withOnComplete) = mount false withOnComplete /\
  timers (mount false withOnComplete) = [].
Proof.
  split; [|reflexivity].
  apply run_fixed; destruct withOnComplete; reflexivity.
Qed.

(** *** The cleanup *)

Lemma filter_twice (P Q : Timer -> Prop)
    `{!forall x, Decision (P x)} `{!forall x, Decision (Q x)} (l : list Timer) :
  filter Q (filter P (filter Q (filter P l))) = filter Q (filter P l).
Proof.
  induction l as [|a l IH]; [reflexivity|].
  rewrite (filter_cons P a l). destruct (decide (P a)) as [Hp|Hp].
  - rewrite (filter_cons Q a). destruct (decide (Q a)) as [Hq|Hq].
    + rewrite (filter_cons P a), decide_True by exact Hp.
      rewrite (filter_cons Q a), decide_True by exact Hq.
      rewrite IH. reflexivity.
    + exact IH.
  - exact IH.
Qed.

Lemma filter_once (P : Timer -> Prop) `{!forall x, Decision (P x)} (l : list Timer) :
  filter P (filter P l) = filter P l.
Proof.
  induction l as [|a l IH]; [reflexivity|].
  rewrite (filter_cons P a l). destruct (decide (P a)) as [Hp|Hp]; [|exact IH].
  rewrite (filter_cons P a), decide_True by exact Hp. rewrite IH. reflexivity.
Qed.

(** The cleanup only removes timers, it removes every timer whose handle is
    in [progressTimer] or [stepTimer], and running it again changes nothing. *)
Theorem cleanup_idempotent (s : State) :
  cleanup (cleanup s) = cleanup s /\
  (forall t, t ∈ timers (cleanup s) ->
     t ∈ timers s /\
     (truthy_handle (progressTimer s) = true -> progressTimer s <> Some (tid t)) /\
     (truthy_handle (stepTimer s) = true -> stepTimer s <> Some (tid t))).
Proof.
  split.
  - unfold cleanup. cbn [timers set_timers progressTimer stepTimer].
    destruct (truthy_handle (progressTimer s)), (truthy_handle (stepTimer s));
      unfold clearTimer; destruct (progressTimer s) as [a|], (stepTimer s) as [b|];
      unfold set_timers; cbn [now nextId currentStep progress status stepStatuses
                              isCompleted progressTimer stepTimer hasOnComplete
                              onCompleteCalls timers];
      rewrite ?filter_twice, ?filter_once; reflexivity.
  - intros t Hin. split; [apply cleanup_subset, Hin|].
    unfold cleanup in Hin. cbn [timers set_timers] in Hin.
    split; intros Htr; rewrite Htr in Hin; intros Heq; rewrite Heq in Hin;
      cbn [clearTimer] in Hin.
    + destruct (truthy_handle (stepTimer s)); [apply clearTimer_subset in Hin|];
        apply list_elem_of_filter in Hin as [Hne _]; congruence.
    + apply list_elem_of_filter in Hin as [Hne _]. congruence.
Qed.

(** *** Without an [onComplete] prop *)

Lemma silent_cleanup s : silent s -> silent (cleanup s).
Proof.
  intros (H1 & H2 & H3). split; [exact H1|]. split; [|exact H3].
  match goal with |- ?x = false => destruct x eqn:E; [|reflexivity] end.
  unfold cleanup in E. cbn [timers set_timers] in E.
  destruct (truthy_handle (stepTimer s)); [apply pending_clear in E|];
    (destruct (truthy_handle (progressTimer s)); [apply pending_clear in E|]);
    congruence.
Qed.

Lemma silent_fire s : silent s -> silent (fire s).
Proof.
  intros (H1 & H2 & H3). unfold fire.
  destruct (next_timer (timers s)) as [t|] eqn:En; [|split; auto].
  apply next_timer_elem in En.
  destruct (cb t) as [i cur|i|i|] eqn:Ecb.
  - split; [exact H1|]. split; [|exact H3].
    match goal with |- ?x = false => destruct x eqn:E; [|reflexivity] end.
    unfold progressTick in E. cbn [timers set_now] in E.
    destruct (Qle_bool _ _); [apply pending_clear in E|];
      apply pending_again in E; congruence.
  - split; [exact H1|]. split; [|exact H3].
    cbn [stepDone expire set_timers set_now timers].
    rewrite pending_app. cbn. rewrite orb_false_r.
    match goal with |- ?x = false => destruct x eqn:E; [|reflexivity] end.
    apply pending_filter in E. congruence.
  - unfold startStep. destruct (length steps <=? S i)%nat;
      cbn [expire set_timers set_now timers hasOnComplete onCompleteCalls];
      unfold silent;
      cbn [hasOnComplete onCompleteCalls timers];
      rewrite ?H1; (split; [reflexivity|]); (split; [|exact H3]);
      rewrite ?pending_app; cbn; rewrite ?orb_false_r;
      match goal with |- ?x = false => destruct x eqn:E; [|reflexivity] end;
      apply pending_filter in E; congruence.
  - pose proof (pending_elem t (timers s) En Ecb). congruence.
Qed.

(** When the component is given no [onComplete], no completion call is ever
    scheduled or made, whatever the interleaving of callbacks and cleanups. *)
Theorem no_callback_without_prop (evs : list Event) (autoStart : bool) :
  let s := run evs (mount autoStart false) in
  onCompleteCalls s = 0%nat /\ completion_pending (timers s) = false.
Proof.
  intros s.
  assert (H : forall x, silent x -> silent (run evs x)).
  { induction evs as [|ev evs IH]; intros x Hx; simpl; [exact Hx|].
    apply IH. destruct ev; [apply silent_fire|apply silent_cleanup]; exact Hx. }
  assert (H0 : silent (mount autoStart false))
    by (destruct autoStart; repeat split).
  destruct (H _ H0) as (_ & H2 & H3). auto.
Qed.

End PipelineMoreFacts.

(** ** Properties of the file helpers *)
Module FilesFacts.
Import Stdlib.Strings.Ascii Files.

Lemma lower_ascii_dot c : is_dot (lower_ascii c) = is_dot c.
Proof.
  destruct c as [[] [] [] [] [] [] [] []]; reflexivity.
Qed.

Lemma has_dot_lower s : has_dot (toLowerCase s) = has_dot s.
Proof.
  induction s as [|c r IH]; [reflexivity|].
  simpl. rewrite lower_ascii_dot, IH. reflexivity.
Qed.

Lemma last_segment_lower s :
  last_segment (toLowerCase s) = toLowerCase (last_segment s).
Proof.
  induction s as [|c r IH]; [reflexivity|].
  cbn [toLowerCase last_segment]. rewrite has_dot_lower, lower_ascii_dot, IH.
  destruct (has_dot r); [reflexivity|]. destruct (is_dot c); reflexivity.
Qed.

Lemma lower_ascii_idem c : lower_ascii (lower_ascii c) = lower_ascii c.
Proof.
  destruct c as [[] [] [] [] [] [] [] []]; reflexivity.
Qed.

Lemma toLowerCase_idem s : toLowerCase (toLowerCase s) = toLowerCase s.
Proof.
  induction s as [|c r IH]; [reflexivity|].
  simpl. rewrite lower_ascii_idem, IH. reflexivity.
Qed.

(** The icon does not depend on the case of the file name: two names that
    differ only in the case of their ASCII letters get the same icon. *)
Theorem icon_ignores_case (n1 n2 : string) :
  toLowerCase n1 = toLowerCase n2 -> getFileIcon n1 = getFileIcon n2.
Proof.
  intros H. unfold getFileIcon.
  rewrite <- !last_segment_lower, H. reflexivity.
Qed.

Lemma icon_ignores_case_witness :
  getFileIcon "Scan.PDF" = getFileIcon "scan.pdf".
Proof. apply (icon_ignores_case "Scan.PDF" "scan.pdf"). reflexivity. Defined.

Lemma last_segment_app base ext :
  has_dot ext = false ->
  last_segment (String.append base (String "."%char ext)) = ext.
Proof.
  intros H. induction base as [|c r IH].
  - simpl. rewrite H. reflexivity.
  - change (String.append (String c r) (String "."%char ext))
      with (String c (String.append r (String "."%char ext))).
    cbn [last_segment].
    assert (Hd : has_dot (String.append r (String "."%char ext)) = true).
    { clear IH. induction r as [|c' r' IHr]; [reflexivity|].
      change (String.append (String c' r') (String "."%char ext))
        with (String c' (String.append r' (String "."%char ext))).
      cbn [has_dot]. rewrite IHr. apply orb_true_r. }
    rewrite Hd. exact IH.
Qed.

Lemma last_segment_no_dot name : has_dot name = false -> last_segment name = name.
Proof.
  intros H. destruct name as [|c r]; [reflexivity|].
  simpl in *. apply orb_false_elim in H as [Hc Hr]. rewrite Hr, Hc. reflexivity.
Qed.

(** Only what follows the last dot decides the icon, and a name without a
    dot is taken as its own extension: a file called [pdf] gets the icon of
    a [.pdf] file, and [report.pdf.exe] the icon of [exe]. *)
Theorem icon_of_last_extension (base ext : string) :
  has_dot ext = false ->
  getFileIcon (String.append base (String "."%char ext)) = getFileIcon ext.
Proof.
  intros H. unfold getFileIcon.
  rewrite (last_segment_app base ext H), (last_segment_no_dot ext H). reflexivity.
Qed.

Lemma icon_of_last_extension_witness :
  getFileIcon (String.append "report.pdf" (String "."%char "exe"))
  = getFileIcon "exe".
Proof. apply (icon_of_last_extension "report.pdf" "exe"). reflexivity. Defined.

(** *** formatFileSize *)

Lemma unitIndex_spec (b : N) :
  (0 < b)%N ->
  let i := Z.of_N (unitIndex b) in
  0 <= i /\ 1024 ^ i <= Z.of_N b < 1024 ^ (i + 1).
Proof.
  intros Hb i.
  pose proof (N.log2_spec b Hb) as [Hlo Hhi].
  assert (Hmul : (10 * unitIndex b <= N.log2 b < 10 * (unitIndex b + 1))%N).
  { unfold unitIndex.
    pose proof (N.Div0.mul_div_le (N.log2 b) 10).
    pose proof (N.mul_succ_div_gt (N.log2 b) 10 ltac:(discriminate)). lia. }
  assert (HN : (1024 ^ unitIndex b <= b < 1024 ^ (unitIndex b + 1))%N).
  { change 1024%N with (2 ^ 10)%N. rewrite <- !N.pow_mul_r. split.
    - eapply N.le_trans; [|exact Hlo]. apply N.pow_le_mono_r; [discriminate|lia].
    - eapply N.lt_le_trans; [exact Hhi|].
      apply N.pow_le_mono_r; [discriminate|lia]. }
  split; [unfold i; lia|].
  unfold i. change 1024 with (Z.of_N 1024).
  replace (Z.of_N (unitIndex b) + 1) with (Z.of_N (unitIndex b + 1)) by lia.
  rewrite <- !N2Z.inj_pow. lia.
Qed.

(** For a size from 1 byte up to (but not including) 1024^4 bytes the unit
    is one of the four names and the number printed lies between 1 and 1024
    (1024 itself is reached by rounding, e.g. for 1048575 bytes), within half
    a hundredth of the exact quotient. *)
Theorem format_size_in_range (b : N) :
  (0 < b < 1024 ^ 4)%N ->
  let v := fst (formatFileSize b) in
  let k := inject_Z (1024 ^ Z.of_N (unitIndex b)) in
  (exists name, snd (formatFileSize b) = Some name /\ name ∈ sizes) /\
  (1 <= v)%Q /\ (v <= 1024)%Q /\
  ((v - (1 # 200)) * k <= inject_Z (Z.of_N b))%Q /\
  (inject_Z (Z.of_N b) <= (v + (1 # 200)) * k)%Q.
Proof.
  intros [Hb Hmax] v k.
  destruct (unitIndex_spec b Hb) as (Hi0 & Hlo & Hhi).
  set (i := Z.of_N (unitIndex b)) in *.
  assert (Hlt4 : i < 4).
  { destruct (Z_lt_le_dec i 4) as [|Hge]; [assumption|exfalso].
    assert (1024 ^ 4 <= 1024 ^ i) by (apply Z.pow_le_mono_r; lia).
    assert (Z.of_N b < 1024 ^ 4).
    { change (1024 ^ 4) with (Z.of_N (1024 ^ 4)). lia. }
    lia. }
  assert (Hk : 0 < 1024 ^ i) by (apply Z.pow_pos_nonneg; lia).
  assert (Hne : (b =? 0)%N = false) by (apply N.eqb_neq; lia).
  unfold v, formatFileSize. rewrite Hne. cbn [fst snd]. fold i. fold k.
  set (x := (inject_Z (Z.of_N b) / k * 100)%Q).
  assert (Hkq : (0 < k)%Q).
  { unfold k. change 0%Q with (inject_Z 0). rewrite <- Zlt_Qlt. exact Hk. }
  assert (Hbk : (k <= inject_Z (Z.of_N b))%Q)
    by (unfold k; rewrite <- Zle_Qle; exact Hlo).
  assert (Hbk' : (inject_Z (Z.of_N b) < 1024 * k)%Q).
  { unfold k. change 1024%Q with (inject_Z 1024).
    rewrite <- inject_Z_mult, <- Zlt_Qlt.
    replace (1024 * 1024 ^ i) with (1024 ^ (i + 1))
      by (rewrite Z.pow_add_r by lia; lia).
    exact Hhi. }
  assert (Hx : (inject_Z (Z.of_N b) == x * k / 100)%Q).
  { unfold x. field. intros E. rewrite E in Hkq. discriminate. }
  assert (Hx1 : (100 <= x)%Q).
  { apply Qmult_le_r with (z := k); [exact Hkq|].
    apply Qmult_le_r with (z := (1 # 100)%Q); [reflexivity|].
    assert (E : (x * k * (1 # 100) == inject_Z (Z.of_N b))%Q)
      by (rewrite Hx; field).
    rewrite E. assert (E' : (100 * k * (1 # 100) == k)%Q) by field.
    rewrite E'. exact Hbk. }
  assert (Hx2 : (x < 102400)%Q).
  { apply Qmult_lt_r with (z := k); [exact Hkq|].
    apply Qmult_lt_r with (z := (1 # 100)%Q); [reflexivity|].
    assert (E : (x * k * (1 # 100) == inject_Z (Z.of_N b))%Q)
      by (rewrite Hx; field).
    rewrite E. assert (E' : (102400 * k * (1 # 100) == 1024 * k)%Q) by field.
    rewrite E'. exact Hbk'. }
  unfold Script.round.
  pose proof (Qfloor_le (x + (1 # 2))) as Hf1.
  pose proof (Qlt_floor (x + (1 # 2))) as Hf2.
  set (r := Qfloor (x + (1 # 2))) in *.
  assert (Hr1 : 100 <= r).
  { apply Qfloor_resp_le in Hx1 as Hc.
    assert (Qfloor x <= r)
      by (apply Qfloor_resp_le; lra).
    change (Qfloor 100) with 100 in Hc. lia. }
  assert (Hr2 : r <= 102400).
  { assert (Hlt : (inject_Z r < inject_Z 102401)%Q).
    { eapply Qle_lt_trans; [exact Hf1|]. change (inject_Z 102401) with 102401%Q. lra. }
    rewrite <- Zlt_Qlt in Hlt. lia. }
  rewrite inject_Z_plus in Hf2. change (inject_Z 1) with 1%Q in Hf2.
  assert (Hr1q : (100 <= inject_Z r)%Q)
    by (change 100%Q with (inject_Z 100); rewrite <- Zle_Qle; exact Hr1).
  assert (Hr2q : (inject_Z r <= 102400)%Q)
    by (change 102400%Q with (inject_Z 102400); rewrite <- Zle_Qle; exact Hr2).
  split.
  { destruct (sizes !! N.to_nat (unitIndex b)) as [name|] eqn:En.
    - exists name. split; [reflexivity|]. eapply list_elem_of_lookup_2, En.
    - apply lookup_ge_None in En. simpl in En. lia. }
  revert Hf1 Hf2 Hr1q Hr2q Hx Hkq. generalize (inject_Z r). intros q.
  generalize (inject_Z (Z.of_N b)). intros bq Hf1 Hf2 Hr1q Hr2q Hx Hkq.
  assert (E1 : (q / 100 == q * (1 # 100))%Q) by field.
  split; [rewrite E1; lra|]. split; [rewrite E1; lra|].
  rewrite Hx, E1. split.
  - assert (E : ((q * (1 # 100) - (1 # 200)) * k == (q - (1 # 2)) * k / 100)%Q)
      by field.
    rewrite E. apply Qmult_le_r with (z := 100%Q); [reflexivity|].
    assert (Ea : ((q - (1 # 2)) * k / 100 * 100 == (q - (1 # 2)) * k)%Q) by field.
    assert (Eb : (x * k / 100 * 100 == x * k)%Q) by field.
    rewrite Ea, Eb. apply Qmult_le_r; [exact Hkq|lra].
  - assert (E : ((q * (1 # 100) + (1 # 200)) * k == (q + (1 # 2)) * k / 100)%Q)
      by field.
    rewrite E. apply Qmult_le_r with (z := 100%Q); [reflexivity|].
    assert (Ea : ((q + (1 # 2)) * k / 100 * 100 == (q + (1 # 2)) * k)%Q) by field.
    assert (Eb : (x * k / 100 * 100 == x * k)%Q) by field.
    rewrite Ea, Eb. apply Qmult_le_r; [exact Hkq|lra].
Qed.

Lemma format_size_in_range_witness :
  let v := fst (formatFileSize 1048575) in
  let k := inject_Z (1024 ^ Z.of_N (unitIndex 1048575)) in
  (exists name, snd (formatFileSize 1048575) = Some name /\ name ∈ sizes) /\
  (1 <= v)%Q /\ (v <= 1024)%Q /\
  ((v - (1 # 200)) * k <= inject_Z (Z.of_N 1048575))%Q /\
  (inject_Z (Z.of_N 1048575) <= (v + (1 # 200)) * k)%Q.
Proof. apply (format_size_in_range 1048575). split; reflexivity. Defined.

(** From 1024^4 bytes (1 TiB) on, [sizes[i]] is [undefined]: the text ends
    in "undefined" instead of a unit. *)
Theorem format_size_unit_undefined (b : N) :
  (1024 ^ 4 <= b)%N -> snd (formatFileSize b) = None.
Proof.
  intros Hb.
  assert (Hpos : (0 < b)%N).
  { eapply N.lt_le_trans; [|exact Hb]. reflexivity. }
  destruct (unitIndex_spec b Hpos) as (Hi0 & _ & Hhi).
  assert (Hne : (b =? 0)%N = false) by (apply N.eqb_neq; lia).
  unfold formatFileSize. rewrite Hne. cbn [snd].
  apply lookup_ge_None. simpl.
  assert (Hge : 4 <= Z.of_N (unitIndex b)).
  { destruct (Z_lt_le_dec (Z.of_N (unitIndex b)) 4) as [Hlt|]; [exfalso|assumption].
    assert (1024 ^ (Z.of_N (unitIndex b) + 1) <= 1024 ^ 4)
      by (apply Z.pow_le_mono_r; lia).
    assert (1024 ^ 4 <= Z.of_N b).
    { change (1024 ^ 4) with (Z.of_N (1024 ^ 4)). lia. }
    lia. }
  lia.
Qed.

Lemma format_size_unit_undefined_witness :
  snd (formatFileSize (2 * 1024 ^ 4)) = None.
Proof. apply (format_size_unit_undefined (2 * 1024 ^ 4)). discriminate. Defined.

End FilesFacts.

(** ** Properties of the label search *)
Module LabelsFacts.
Import Labels.

Lemma append_cons (x : Ascii.ascii) (a b : string) :
  String.append (String x a) b = String x (String.append a b).
Proof. reflexivity. Qed.

Lemma append_nil (b : string) : String.append EmptyString b = b.
Proof. reflexivity. Qed.

Lemma prefix_spec (t s : string) :
  String.prefix t s = true <-> exists r, s = String.append t r.
Proof.
  revert s. induction t as [|a t IH]; intros s.
  - split; [intros _; exists s; reflexivity|intros _; destruct s; reflexivity].
  - destruct s as [|b s]; simpl.
    + split; [discriminate|intros [r Hr]; rewrite append_cons in Hr; discriminate].
    + destruct (Ascii.ascii_dec a b) as [->|Hne].
      * rewrite IH. split; intros [r Hr]; exists r; rewrite append_cons in *;
          congruence.
      * split; [discriminate|intros [r Hr]; rewrite append_cons in Hr; congruence].
Qed.

Lemma append_assoc (a b c : string) :
  String.append (String.append a b) c = String.append a (String.append b c).
Proof.
  induction a as [|x a IH]; [reflexivity|].
  rewrite !append_cons, IH. reflexivity.
Qed.

Lemma includes_spec (s t : string) :
  includes s t = true
  <-> exists a b, s = String.append a (String.append t b).
Proof.
  induction s as [|x s IH].
  - cbn [includes]. rewrite orb_false_r, prefix_spec. split.
    + intros [r Hr]. exists EmptyString, r. exact Hr.
    + intros (a & b & H). destruct a; [exists b; exact H|].
      rewrite append_cons in H. discriminate.
  - cbn [includes]. rewrite orb_true_iff, prefix_spec, IH. split.
    + intros [[r Hr]|(a & b & H)].
      * exists EmptyString, r. exact Hr.
      * exists (String x a), b. rewrite append_cons. congruence.
    + intros (a & b & H). destruct a as [|y a].
      * left. exists b. exact H.
      * right. exists a, b. rewrite append_cons in H. congruence.
Qed.

Lemma includes_trans (s t u : string) :
  includes s t = true -> includes t u = true -> includes s u = true.
Proof.
  rewrite !includes_spec. intros (a & b & ->) (a' & b' & ->).
  exists (String.append a a'), (String.append b' b).
  rewrite !append_assoc. reflexivity.
Qed.

Lemma includes_empty (s : string) : includes s "" = true.
Proof. destruct s; reflexivity. Qed.

Lemma includes_in_empty (t : string) : includes "" t = true -> t = ""%string.
Proof. destruct t; [reflexivity|discriminate]. Qed.

Section LowerCase.
Variable toLowerCase : string -> string.

Lemma fold_visit (c : Controls) (cards : list Card) (n : nat) (done : list Card) :
  fold_left (visit toLowerCase c) cards (n, done)
  = ((n + length (filter (fun card => shown toLowerCase c card = true) cards))%nat,
     done ++ map (fun card => set_hidden (negb (shown toLowerCase c card)) card) cards).
Proof.
  revert n done. induction cards as [|card cards IH]; intros n done.
  - simpl. rewrite Nat.add_0_r, app_nil_r. reflexivity.
  - cbn [fold_left]. unfold visit at 2. cbn [fst snd].
    rewrite filter_cons. destruct (shown toLowerCase c card) eqn:E.
    + rewrite IH. rewrite decide_True by reflexivity.
      cbn [length map]. rewrite E, <- app_assoc. f_equal. lia.
    + rewrite IH. rewrite decide_False by discriminate.
      cbn [length map]. rewrite E, <- app_assoc. reflexivity.
Qed.

Lemma filterLabels_unfold (c : Controls) (cards : list Card) :
  filterLabels toLowerCase c cards
  = (map (fun card => set_hidden (negb (shown toLowerCase c card)) card) cards,
     (length (filter (fun card => shown toLowerCase c card = true) cards), length cards)).
Proof.
  unfold filterLabels. rewrite fold_visit. reflexivity.
Qed.

Lemma visible_after (c : Controls) (cards : list Card) :
  length (filter (fun card => hidden card = false)
            (map (fun card => set_hidden (negb (shown toLowerCase c card)) card) cards))
  = length (filter (fun card => shown toLowerCase c card = true) cards).
Proof.
  induction cards as [|card cards IH]; [reflexivity|].
  cbn [map]. rewrite !filter_cons. cbn [hidden set_hidden].
  destruct (shown toLowerCase c card) eqn:E; cbn [negb].
  - rewrite !decide_True by reflexivity. cbn [length]. rewrite IH. reflexivity.
  - rewrite !decide_False by discriminate. exact IH.
Qed.

(** The number of visible cards that [filterLabels] counts while it walks
    over the cards is the number of cards left without the class [hidden]:
    a recount by [updateLabelCount()] writes the same two numbers. *)
Theorem recount_agrees_with_filter (c : Controls) (cards : list Card) :
  updateLabelCount None None (fst (filterLabels toLowerCase c cards))
  = snd (filterLabels toLowerCase c cards).
Proof.
  rewrite filterLabels_unfold. cbn [fst snd updateLabelCount].
  rewrite visible_after, length_map. reflexivity.
Qed.

Lemma shown_narrow (c c' : Controls) (card : Card) :
  activeFilter c' = activeFilter c ->
  includes (searchTerm toLowerCase c') (searchTerm toLowerCase c) = true ->
  shown toLowerCase c' card = true -> shown toLowerCase c card = true.
Proof.
  intros Hf Hinc. unfold Labels.shown, matchesFilter, filterType.
  rewrite Hf. rewrite !andb_true_iff. intros [Hmf Hms]. split; [exact Hmf|].
  revert Hms. unfold matchesSearch. fold (searchTerm toLowerCase c) (searchTerm toLowerCase c').
  rewrite !orb_true_iff. intros [[He|Hk]|Ht].
  - apply String.eqb_eq in He. rewrite He in Hinc.
    apply includes_in_empty in Hinc. left; left. rewrite Hinc. reflexivity.
  - left; right. eapply includes_trans; eassumption.
  - right. eapply includes_trans; eassumption.
Qed.

Lemma filter_length_mono {A} (P Q : A -> Prop)
  `{!forall x, Decision (P x)} `{!forall x, Decision (Q x)} (l : list A) :
  (forall x, P x -> Q x) ->
  (length (filter P l) <= length (filter Q l))%nat.
Proof.
  intros Himp. induction l as [|x l IH]; [reflexivity|].
  rewrite !filter_cons.
  destruct (decide (P x)) as [Hp|Hp].
  - rewrite decide_True by (apply Himp; exact Hp). cbn [length]. lia.
  - destruct (decide (Q x)); cbn [length]; lia.
Qed.

(** A search term that contains the previous one (the user typed more
    characters, before or after) never brings back a card: every card hidden
    before is hidden afterwards, and the count of visible cards does not
    grow.  The terms compared are the lower-cased ones the code searches
    for. *)
Theorem longer_search_shows_no_new_card (c c' : Controls) (cards : list Card) :
  activeFilter c' = activeFilter c ->
  includes (searchTerm toLowerCase c') (searchTerm toLowerCase c) = true ->
  (forall i card card',
     fst (filterLabels toLowerCase c cards) !! i = Some card ->
     fst (filterLabels toLowerCase c' cards) !! i = Some card' ->
     hidden card = true -> hidden card' = true) /\
  (fst (snd (filterLabels toLowerCase c' cards)) <= fst (snd (filterLabels toLowerCase c cards)))%nat.
Proof.
  intros Hf Hinc. rewrite !filterLabels_unfold. cbn [fst snd]. split.
  - intros i card card'. rewrite !list_lookup_fmap.
    destruct (cards !! i) as [x|]; [|discriminate]. cbn [fmap option_fmap option_map].
    intros [= <-] [= <-]. cbn [hidden set_hidden].
    rewrite !negb_true_iff. intros Hh.
    destruct (shown toLowerCase c' x) eqn:E; [|reflexivity].
    rewrite (shown_narrow c c' x Hf Hinc E) in Hh. discriminate.
  - apply filter_length_mono. intros x. apply shown_narrow; assumption.
Qed.

End LowerCase.

Lemma longer_search_shows_no_new_card_witness :
  (forall i card card',
     fst (filterLabels Files.toLowerCase search_na sample_cards) !! i = Some card ->
     fst (filterLabels Files.toLowerCase search_Name sample_cards) !! i = Some card' ->
     hidden card = true -> hidden card' = true) /\
  (fst (snd (filterLabels Files.toLowerCase search_Name sample_cards))
   <= fst (snd (filterLabels Files.toLowerCase search_na sample_cards)))%nat.
Proof.
  apply (longer_search_shows_no_new_card Files.toLowerCase search_na search_Name
           sample_cards); reflexivity.
Defined.

End LabelsFacts.

(** ** Properties of the statistics counter *)
Module HomeFacts.
Import Home.

Lemma pow4 (x : Q) : (x ^ 4 == (x * x) * (x * x))%Q.
Proof. simpl. ring. Qed.

Lemma progressAt_range (startTime duration t : Q) :
  (0 < duration)%Q -> (startTime <= t)%Q ->
  (0 <= progressAt startTime duration t <= 1)%Q.
Proof.
  intros Hd Ht. unfold progressAt. split.
  - apply Q.min_glb; [|lra].
    apply Qle_shift_div_l; [exact Hd|lra].
  - apply Q.le_min_r.
Qed.

Lemma progressAt_mono (startTime duration t1 t2 : Q) :
  (0 < duration)%Q -> (t1 <= t2)%Q ->
  (progressAt startTime duration t1 <= progressAt startTime duration t2)%Q.
Proof.
  intros Hd Ht. unfold progressAt.
  apply Q.min_le_compat_r.
  apply Qle_shift_div_l; [exact Hd|].
  assert (E : ((t1 - startTime) / duration * duration == t1 - startTime)%Q).
  { field. intros E. rewrite E in Hd. discriminate. }
  rewrite E. lra.
Qed.

Lemma sq_mono (a b : Q) : (0 <= a)%Q -> (a <= b)%Q -> (a * a <= b * b)%Q.
Proof. intros Ha Hab. nra. Qed.

Lemma sq_nonneg (a : Q) : (0 <= a * a)%Q.
Proof. nra. Qed.

Lemma easeOutQuart_mono (p q : Q) :
  (p <= q)%Q -> (q <= 1)%Q -> (easeOutQuart p <= easeOutQuart q)%Q.
Proof.
  intros Hpq Hq. unfold easeOutQuart. rewrite !pow4.
  assert (H1 : ((1 - q) * (1 - q) <= (1 - p) * (1 - p))%Q)
    by (apply sq_mono; lra).
  pose proof (sq_nonneg (1 - q)) as H0.
  pose proof (sq_mono _ _ H0 H1). lra.
Qed.

Lemma easeOutQuart_0 : (easeOutQuart 0 == 0)%Q.
Proof. reflexivity. Qed.

Lemma easeOutQuart_1 : (easeOutQuart 1 == 1)%Q.
Proof. reflexivity. Qed.

Lemma easeOutQuart_range (p : Q) :
  (0 <= p <= 1)%Q -> (0 <= easeOutQuart p <= 1)%Q.
Proof.
  intros [H0 H1]. split.
  - rewrite <- easeOutQuart_0. apply easeOutQuart_mono; lra.
  - rewrite <- easeOutQuart_1. apply easeOutQuart_mono; lra.
Qed.

Lemma current_mono (start end_ : Z) (e1 e2 : Q) :
  start <= end_ -> (e1 <= e2)%Q ->
  Qfloor (inject_Z start + (inject_Z end_ - inject_Z start) * e1)
  <= Qfloor (inject_Z start + (inject_Z end_ - inject_Z start) * e2).
Proof.
  intros Hse He. apply Qfloor_resp_le.
  assert (Hd : (0 <= inject_Z end_ - inject_Z start)%Q).
  { rewrite Zle_Qle in Hse. lra. }
  assert ((inject_Z end_ - inject_Z start) * e1
          <= (inject_Z end_ - inject_Z start) * e2)%Q.
  { rewrite !(Qmult_comm (inject_Z end_ - inject_Z start)).
    apply Qmult_le_compat_r; assumption. }
  lra.
Qed.

(** With [start <= end] the counter never shows a number outside
    [start, end] in a frame whose time is not before the start time. *)
Theorem counter_stays_in_range (startTime : Q) (start end_ : Z) (duration t : Q) :
  (0 < duration)%Q -> start <= end_ -> (startTime <= t)%Q ->
  start <= fst (update startTime start end_ duration t) <= end_.
Proof.
  intros Hd Hse Ht. unfold update. cbn [fst].
  destruct (progressAt_range startTime duration t Hd Ht) as [Hp0 Hp1].
  destruct (easeOutQuart_range _ (conj Hp0 Hp1)) as [He0 He1].
  split.
  - pose proof (current_mono start end_ _ _ Hse He0) as Hm.
    assert (E : (inject_Z start + (inject_Z end_ - inject_Z start) * 0
                 == inject_Z start)%Q) by ring.
    rewrite E, Qfloor_Z in Hm. exact Hm.
  - pose proof (current_mono start end_ _ _ Hse He1) as Hm.
    assert (E : (inject_Z start + (inject_Z end_ - inject_Z start) * 1
                 == inject_Z end_)%Q) by ring.
    rewrite E, Qfloor_Z in Hm. exact Hm.
Qed.

Lemma counter_stays_in_range_witness :
  0 <= fst (update 100 0 95 2000 1100) <= 95.
Proof.
  apply (counter_stays_in_range 100 0 95 2000 1100); [reflexivity|lia|discriminate].
Defined.

(** With [start <= end] a later frame never shows a smaller number than an
    earlier one. *)
Theorem counter_never_decreases (startTime : Q) (start end_ : Z)
  (duration t1 t2 : Q) :
  (0 < duration)%Q -> start <= end_ -> (t1 <= t2)%Q ->
  fst (update startTime start end_ duration t1)
  <= fst (update startTime start end_ duration t2).
Proof.
  intros Hd Hse Ht. unfold update. cbn [fst].
  apply current_mono; [exact Hse|].
  apply easeOutQuart_mono.
  - apply progressAt_mono; assumption.
  - apply Q.le_min_r.
Qed.

Lemma counter_never_decreases_witness :
  fst (update 100 0 95 2000 600) <= fst (update 100 0 95 2000 1100).
Proof.
  apply (counter_never_decreases 100 0 95 2000 600 1100);
    [reflexivity|lia|discriminate].
Defined.

Lemma update_again_iff (startTime : Q) (start end_ : Z) (duration t : Q) :
  (0 < duration)%Q ->
  snd (update startTime start end_ duration t) = true
  <-> (t < startTime + duration)%Q.
Proof.
  intros Hd. unfold update. cbn [snd].
  assert (Hne : ~ (duration == 0)%Q) by (intros E; rewrite E in Hd; discriminate).
  assert (Hdiv : forall x, (x / duration * duration == x)%Q)
    by (intros x; field; exact Hne).
  assert (Hiff : (1 <= progressAt startTime duration t)%Q
                 <-> (startTime + duration <= t)%Q).
  { unfold progressAt. split.
    - intros H. apply Q.min_glb_l in H.
      apply Qmult_le_r with (z := duration) in H; [|exact Hd].
      rewrite Hdiv in H. lra.
    - intros H. apply Q.min_glb; [|lra].
      apply Qle_shift_div_l; [exact Hd|lra]. }
  rewrite negb_true_iff. split.
  - intros Hb. apply Qnot_le_lt. intros Hc. apply Hiff in Hc.
    apply Qle_bool_iff in Hc. congruence.
  - intros Hlt. destruct (Qle_bool 1 _) eqn:E; [|reflexivity].
    apply Qle_bool_iff, Hiff in E. lra.
Qed.

Lemma update_last (startTime : Q) (start end_ : Z) (duration t : Q) :
  snd (update startTime start end_ duration t) = false ->
  fst (update startTime start end_ duration t) = end_.
Proof.
  unfold update. cbn [fst snd].
  rewrite negb_false_iff. intros Hb. apply Qle_bool_iff in Hb.
  assert (Ep : (progressAt startTime duration t == 1)%Q).
  { apply Qle_antisym; [apply Q.le_min_r|exact Hb]. }
  assert (E : (inject_Z start + (inject_Z end_ - inject_Z start)
               * easeOutQuart (progressAt startTime duration t)
               == inject_Z end_)%Q).
  { unfold easeOutQuart. rewrite Ep.
    change ((1 - (1 - 1) ^ 4)%Q) with (1 - 0 ^ 4)%Q.
    rewrite pow4. ring. }
  rewrite E. apply Qfloor_Z.
Qed.



(** Whatever the frame times, as soon as one of them is [duration] or more
    after the start the animation ends, and the last number written is
    [end]. *)
Theorem counter_run_ends_on_target (startTime : Q) (start end_ : Z)
  (duration : Q) (frames : list Q) :
  (0 < duration)%Q ->
  Exists (fun t => (startTime + duration <= t)%Q) frames ->
  last (animateNumber startTime start end_ duration frames) = Some end_.
Proof.
  intros Hd. induction frames as [|t rest IH]; intros Hex.
  - inversion Hex.
  - cbn [animateNumber].
    pose proof (update_again_iff startTime start end_ duration t Hd) as Hiff.
    pose proof (update_last startTime start end_ duration t) as Hlast.
    destruct (update startTime start end_ duration t) as [current again].
    cbn [fst snd] in Hiff, Hlast. destruct again.
    + assert (Hlt : (t < startTime + duration)%Q) by (apply Hiff; reflexivity).
      inversion Hex as [? ? Hhd|? ? Htl]; subst; [lra|].
      rewrite last_cons, (IH Htl). reflexivity.
    + rewrite (Hlast eq_refl). reflexivity.
Qed.

Lemma counter_run_ends_on_target_witness :
  last (animateNumber 100 0 95 2000 [116; 1100; 2100; 2116]%Q) = Some 95.
Proof.
  apply (counter_run_ends_on_target 100 0 95 2000 [116; 1100; 2100; 2116]%Q);
    [reflexivity|].
  apply Exists_cons_tl, Exists_cons_tl, Exists_cons_hd. discriminate.
Defined.

End HomeFacts.
